(** * Goals of the pathfinder ([lib/goals.js])

    A shallow embedding of the goal classes: the positional goals, the
    composites, [GoalInvert], [GoalFollow] and [GoalPlaceBlock], followed by
    the properties established about them.

    Number model.  A JavaScript number is a binary64 float.  Block
    coordinates (the fields set through [Math.floor], and the [x], [y], [z]
    of a search node) are integers and are embedded in [Z]; every other
    number (ranges, heuristic values, eye positions, angles) is embedded in
    [R], with [Math.sqrt], [Math.atan2], [Math.PI] and [Math.SQRT2] read as
    the functions and constants they approximate.  [NaN], the infinities and
    the sign of zero have no counterpart; where the source's behaviour
    depends on them the definition says so. *)

From Stdlib Require Import ZArith List String Bool Lia Lra Reals.
Import ListNotations.

Local Open Scope R_scope.

(** ** JavaScript numbers and [Math] *)

Module JS.

Definition ltb (a b : R) : bool := if Rlt_dec a b then true else false.
Definition leb (a b : R) : bool := if Rle_dec a b then true else false.
Definition gtb (a b : R) : bool := ltb b a.
(** [a === b] on numbers. *)
Definition eqb (a b : R) : bool := if Req_dec_T a b then true else false.

(** [ToBoolean] of a number: [0] is the only falsy real. *)
Definition truthy (a : R) : bool := negb (eqb a 0).

(** [Number.MIN_VALUE] is the smallest positive binary64 value, 2^-1074,
    and [Number.MAX_VALUE] the largest finite one, (2^53 - 1) * 2^971. *)
Definition MIN_VALUE : R := / 2 ^ 1074.
Definition MAX_VALUE : R := (2 ^ 53 - 1) * 2 ^ 971.

Definition SQRT2 : R := sqrt 2.

(** [Math.floor], as an integer. *)
Definition floor (a : R) : Z := Zfloor a.

(** [Math.atan2 y x].  At [x = 0] and [y = 0] the source's result depends
    on the signs of the two zeros (0 or +-PI); the embedding returns 0, the
    result for two positive zeros. *)
Definition atan2 (y x : R) : R :=
  if Rlt_dec 0 x then atan (y / x)
  else if Rlt_dec x 0 then
    (if Rle_dec 0 y then atan (y / x) + PI else atan (y / x) - PI)
  else if Rlt_dec 0 y then PI / 2
  else if Rlt_dec y 0 then - PI / 2
  else 0.

(** [Math.atan2 y (-z)], the call [checkFacing] makes on a direction.  A
    zero component of a direction is the positive zero, which is what the
    subtraction [to.minus(headPos)] and a literal 0 give; its opposite is
    then the negative zero, for which [Math.atan2] of a zero [y] is PI and
    not 0.  Everywhere else the call is [atan2 y (- z)]. *)
Definition atan2_neg (y z : R) : R :=
  if eqb z 0 && eqb y 0 then PI else atan2 y (- z).

(** [Array.prototype.indexOf] on an array of strings: the first index
    holding [s], or [-1]. *)
Fixpoint indexOf_from (i : Z) (l : list string) (s : string) : Z :=
  match l with
  | [] => (-1)%Z
  | h :: t => if String.eqb h s then i else indexOf_from (i + 1)%Z t s
  end.
Definition indexOf (l : list string) (s : string) : Z := indexOf_from 0%Z l s.

End JS.

(** ** Vectors (the [vec3] package) and search nodes *)

Module Vec3.

Record t : Type := mk { x : R; y : R; z : R }.

Definition floored (v : t) : t :=
  mk (IZR (JS.floor (x v))) (IZR (JS.floor (y v))) (IZR (JS.floor (z v))).
Definition plus (v w : t) : t := mk (x v + x w) (y v + y w) (z v + z w).
(** [add] updates its receiver and returns it; the receiver is never read
    again where the goals call it, so it is embedded as [plus]. *)
Definition add (v w : t) : t := plus v w.
Definition minus (v w : t) : t := mk (x v - x w) (y v - y w) (z v - z w).
Definition scaled (v : t) (k : R) : t := mk (x v * k) (y v * k) (z v * k).
Definition offset (v : t) (dx dy dz : R) : t := mk (x v + dx) (y v + dy) (z v + dz).
Definition norm (v : t) : R := sqrt (x v * x v + y v * y v + z v * z v).
(** [normalize] leaves the zero vector as it is. *)
Definition normalize (v : t) : t :=
  let n := norm v in
  if JS.eqb n 0 then v else mk (x v / n) (y v / n) (z v / n).
Definition equals (v w : t) : bool :=
  JS.eqb (x v) (x w) && JS.eqb (y v) (y w) && JS.eqb (z v) (z w).

End Vec3.

(** A node of the search: integer block coordinates. *)
Module Node.

Record t : Type := mk { x : Z; y : Z; z : Z }.

Definition toVec3 (n : t) : Vec3.t := Vec3.mk (IZR (x n)) (IZR (y n)) (IZR (z n)).
Definition offset (n : t) (dx dy dz : R) : Vec3.t := Vec3.offset (toVec3 n) dx dy dz.

End Node.

(** ** [distanceXZ] *)

Definition distanceXZ (dx dz : R) : R :=
  let dx := Rabs dx in
  let dz := Rabs dz in
  Rabs (dx - dz) + Rmin dx dz * JS.SQRT2.

(** ** The base class

    [Goal.prototype]'s defaults; a subclass that does not override
    [hasChanged] inherits this one. *)

Module Goal.

Definition heuristic (node : Node.t) : R := 0.
Definition isEnd (node : Node.t) : bool := true.
Definition hasChanged : bool := false.

End Goal.

(** ** Positional goals *)

Module GoalBlock.

Record t : Type := mk { x : Z; y : Z; z : Z }.

Definition new (x y z : R) : t := mk (JS.floor x) (JS.floor y) (JS.floor z).

Definition heuristic (this : t) (node : Node.t) : R :=
  let dx := (x this - Node.x node)%Z in
  let dy := (y this - Node.y node)%Z in
  let dz := (z this - Node.z node)%Z in
  distanceXZ (IZR dx) (IZR dz) + IZR (Z.abs dy).

Definition isEnd (this : t) (node : Node.t) : bool :=
  ((Node.x node =? x this) && (Node.y node =? y this) && (Node.z node =? z this))%Z.

Definition hasChanged (this : t) : bool * t := (Goal.hasChanged, this).

End GoalBlock.

Module GoalNear.

Record t : Type := mk { x : Z; y : Z; z : Z; rangeSq : R }.

(** [rangeSq] is the product as a real number; the source stores the
    binary64 product, which is the same number whenever the square of the
    range is a binary64 value (as for an integer range) and its rounding
    otherwise.  What is proved of [isEnd] in general is stated on the
    stored [rangeSq]. *)
Definition new (x y z range : R) : t :=
  mk (JS.floor x) (JS.floor y) (JS.floor z) (range * range).

Definition heuristic (this : t) (node : Node.t) : R :=
  let dx := (x this - Node.x node)%Z in
  let dy := (y this - Node.y node)%Z in
  let dz := (z this - Node.z node)%Z in
  distanceXZ (IZR dx) (IZR dz) + IZR (Z.abs dy).

Definition isEnd (this : t) (node : Node.t) : bool :=
  let dx := (x this - Node.x node)%Z in
  let dy := (y this - Node.y node)%Z in
  let dz := (z this - Node.z node)%Z in
  JS.leb (IZR (dx * dx + dy * dy + dz * dz)) (rangeSq this).

Definition hasChanged (this : t) : bool * t := (Goal.hasChanged, this).

End GoalNear.

Module GoalXZ.

Record t : Type := mk { x : Z; z : Z }.

Definition new (x z : R) : t := mk (JS.floor x) (JS.floor z).

Definition heuristic (this : t) (node : Node.t) : R :=
  let dx := (x this - Node.x node)%Z in
  let dz := (z this - Node.z node)%Z in
  distanceXZ (IZR dx) (IZR dz).

Definition isEnd (this : t) (node : Node.t) : bool :=
  ((Node.x node =? x this) && (Node.z node =? z this))%Z.

Definition hasChanged (this : t) : bool * t := (Goal.hasChanged, this).

End GoalXZ.

Module GoalY.

Record t : Type := mk { y : Z }.

Definition new (y : R) : t := mk (JS.floor y).

Definition heuristic (this : t) (node : Node.t) : R :=
  let dy := (y this - Node.y node)%Z in
  IZR (Z.abs dy).

Definition isEnd (this : t) (node : Node.t) : bool :=
  (Node.y node =? y this)%Z.

Definition hasChanged (this : t) : bool * t := (Goal.hasChanged, this).

End GoalY.

Module GoalGetToBlock.

Record t : Type := mk { x : Z; y : Z; z : Z }.

Definition new (x y z : R) : t := mk (JS.floor x) (JS.floor y) (JS.floor z).

Definition heuristic (this : t) (node : Node.t) : R :=
  let dx := (Node.x node - x this)%Z in
  let dy := (Node.y node - y this)%Z in
  let dz := (Node.z node - z this)%Z in
  distanceXZ (IZR dx) (IZR dz) + IZR (Z.abs (if (dy <? 0)%Z then dy + 1 else dy)).

Definition isEnd (this : t) (node : Node.t) : bool :=
  let dx := (Node.x node - x this)%Z in
  let dy := (Node.y node - y this)%Z in
  let dz := (Node.z node - z this)%Z in
  (Z.abs dx + Z.abs (if dy <? 0 then dy + 1 else dy) + Z.abs dz =? 1)%Z.

Definition hasChanged (this : t) : bool * t := (Goal.hasChanged, this).

End GoalGetToBlock.

(** ** Entities

    An entity is owned by the world; a goal holds a reference to it and reads
    its position through the heap of the moment. *)

Module Entity.

Record t : Type := mk { position : Vec3.t }.

Definition ref : Type := nat.
Definition heap : Type := ref -> t.

(** [entity.position.floored()], as integer coordinates. *)
Definition floored (e : t) : Node.t :=
  Node.mk (JS.floor (Vec3.x (position e)))
          (JS.floor (Vec3.y (position e)))
          (JS.floor (Vec3.z (position e))).

End Entity.

(** ** [GoalFollow] *)

Module GoalFollow.

Record t : Type := mk { entity : Entity.ref; x : Z; y : Z; z : Z; rangeSq : R }.

(** [rangeSq] is the product as a real number, as in [GoalNear.new]. *)
Definition new (h : Entity.heap) (entity : Entity.ref) (range : R) : t :=
  let p := Entity.position (h entity) in
  mk entity (JS.floor (Vec3.x p)) (JS.floor (Vec3.y p)) (JS.floor (Vec3.z p))
     (range * range).

Definition heuristic (this : t) (node : Node.t) : R :=
  let dx := (x this - Node.x node)%Z in
  let dy := (y this - Node.y node)%Z in
  let dz := (z this - Node.z node)%Z in
  distanceXZ (IZR dx) (IZR dz) + IZR (Z.abs dy).

Definition isEnd (this : t) (node : Node.t) : bool :=
  let dx := (x this - Node.x node)%Z in
  let dy := (y this - Node.y node)%Z in
  let dz := (z this - Node.z node)%Z in
  JS.leb (IZR (dx * dx + dy * dy + dz * dz)) (rangeSq this).

(** The only method of the file that assigns to [this]: the result is the
    returned boolean and the goal as the call leaves it. *)
Definition hasChanged (h : Entity.heap) (this : t) : bool * t :=
  let p := Entity.floored (h (entity this)) in
  let dx := (x this - Node.x p)%Z in
  let dy := (y this - Node.y p)%Z in
  let dz := (z this - Node.z p)%Z in
  if JS.gtb (IZR (dx * dx + dy * dy + dz * dz)) (rangeSq this)
  then (true, mk (entity this) (Node.x p) (Node.y p) (Node.z p) (rangeSq this))
  else (false, this).

End GoalFollow.

(** ** The world, as [GoalPlaceBlock] uses it *)

Module World.

(** A shape is a box, [[x0, y0, z0, x1, y1, z1]]. *)
Definition Shape : Type := list R.

Record Block : Type := mkBlock { shapes : list Shape }.

(** What [raycast] returns for a hit; [face] is [None] when the property is
    undefined. *)
Record RayHit : Type := mkHit { position : Vec3.t; face : option Z }.

Record t : Type := mk {
  getBlock : Vec3.t -> Block;
  raycast : Vec3.t -> Vec3.t -> R -> option RayHit
}.

End World.

(** ** [vectorToDirection]

    [None] is [undefined], returned for the zero vector when every test of
    the chain fails. *)

Definition vectorToDirection (v : Vec3.t) : option Z :=
  if JS.ltb (Vec3.y v) 0 then Some 0%Z
  else if JS.gtb (Vec3.y v) 0 then Some 1%Z
  else if JS.ltb (Vec3.z v) 0 then Some 2%Z
  else if JS.gtb (Vec3.z v) 0 then Some 3%Z
  else if JS.ltb (Vec3.x v) 0 then Some 4%Z
  else if JS.gtb (Vec3.x v) 0 then Some 5%Z
  else None.

(** [a === b] between two values that are each a number or [undefined]. *)
Definition strict_eq (a b : option Z) : bool :=
  match a, b with
  | Some i, Some j => (i =? j)%Z
  | None, None => true
  | _, _ => false
  end.

(** ** [GoalPlaceBlock] *)

Module GoalPlaceBlock.

(** The [options] object as the caller passes it: [None] is a missing
    property. *)
Module Options.
Record t : Type := mk {
  range : option R;
  faces : option (list Vec3.t);
  facing : option string;
  facing3D : bool;
  half : option string;
  LOS : option bool
}.
End Options.

(** The same object once the constructor has filled it in; [facing] is now
    an index, [-1] for no constraint.  (The constructor writes into the
    caller's object; the embedding returns the filled object and leaves the
    caller's copy out, no property below depends on it.) *)
Record options : Type := mkOptions {
  range : R;
  faces : list Vec3.t;
  facing : Z;
  facing3D : bool;
  half : option string;
  LOS : bool
}.

Record t : Type := mk {
  pos : Vec3.t;
  world : World.t;
  opts : options;
  facesPos : list (Vec3.t * Vec3.t * Vec3.t)
}.

Record FaceAndRef : Type := mkFaceAndRef { face : Vec3.t; to : Vec3.t; ref : Vec3.t }.

Definition defaultFaces : list Vec3.t :=
  [Vec3.mk 0 (-1) 0; Vec3.mk 0 1 0; Vec3.mk 0 0 (-1);
   Vec3.mk 0 0 1; Vec3.mk (-1) 0 0; Vec3.mk 1 0 0].

Definition facingNames : list string :=
  ["north"; "east"; "south"; "west"; "up"; "down"]%string.

Section Constructor.

(** [getShapeFaceCenters] of [./shapes]: the centers of the faces of the
    shapes that look along the given normal, restricted to a half. *)
Variable getShapeFaceCenters :
  list World.Shape -> Vec3.t -> option string -> list Vec3.t.

Definition fillOptions (o : Options.t) : options :=
  mkOptions
    (match Options.range o with
     | Some r => if JS.truthy r then r else 5
     | None => 5
     end)
    (match Options.faces o with
     | Some fs => fs
     | None => defaultFaces
     end)
    (match Options.facing o with
     | Some s => JS.indexOf facingNames s
     | None => (-1)%Z
     end)
    (Options.facing3D o)
    (Options.half o)
    (match Options.LOS o with
     | Some b => b
     | None => true
     end).

Definition new (pos : Vec3.t) (world : World.t) (o : Options.t) : t :=
  let pos := Vec3.floored pos in
  let o := fillOptions o in
  mk pos world o
     (flat_map
        (fun dir =>
           let ref := Vec3.plus pos dir in
           let refBlock := World.getBlock world ref in
           map (fun center => (dir, Vec3.add center ref, ref))
               (getShapeFaceCenters (World.shapes refBlock)
                                    (Vec3.scaled dir (-1)) (half o)))
        (faces o)).

End Constructor.

Definition heuristic (this : t) (node : Node.t) : R :=
  let dx := IZR (Node.x node) - Vec3.x (pos this) in
  let dy := IZR (Node.y node) - Vec3.y (pos this) in
  let dz := IZR (Node.z node) - Vec3.z (pos this) in
  distanceXZ dx dz + Rabs (if JS.ltb dy 0 then dy + 1 else dy).

Definition isStandingIn (this : t) (node : Node.t) : bool :=
  let dx := IZR (Node.x node) - Vec3.x (pos this) in
  let dy := IZR (Node.y node) - Vec3.y (pos this) in
  let dz := IZR (Node.z node) - Vec3.z (pos this) in
  JS.ltb (Rabs dx + Rabs (if JS.ltb dy 0 then dy + 1 else dy) + Rabs dz) 1.

Definition checkFacing (this : t) (dir : Vec3.t) : bool :=
  if (facing (opts this) <? 0)%Z then true
  else
    let horizontal :=
      let angle := JS.atan2_neg (Vec3.x dir) (Vec3.z dir) * 180 / PI + 180 in
      let facing' := Z.land (JS.floor (angle / 90 + 0.5)) 3 in
      if (facing (opts this) =? facing')%Z then true else false in
    if facing3D (opts this) then
      let dH := sqrt (Vec3.x dir * Vec3.x dir + Vec3.z dir * Vec3.z dir) in
      let vAngle := JS.atan2 (Vec3.y dir) dH * 180 / PI in
      if JS.gtb vAngle 45 then (facing (opts this) =? 4)%Z
      else if JS.ltb vAngle (-45) then (facing (opts this) =? 5)%Z
      else horizontal
    else horizontal.

(** The body of the loop of [getFaceAndRef] on one entry of [facesPos]:
    [Some] when the entry is returned, [None] when the loop goes on. *)
Definition tryFace (this : t) (headPos : Vec3.t)
           (entry : Vec3.t * Vec3.t * Vec3.t) : option FaceAndRef :=
  let '(face, to, ref) := entry in
  let dir := Vec3.minus to headPos in
  if JS.gtb (Vec3.norm dir) (range (opts this)) then None
  else if negb (checkFacing this dir) then None
  else if negb (LOS (opts this)) then Some (mkFaceAndRef face to ref)
  else
    match World.raycast (world this) headPos (Vec3.normalize dir)
                        (range (opts this)) with
    | Some block =>
        if Vec3.equals (World.position block) ref
           && strict_eq (World.face block)
                        (vectorToDirection (Vec3.scaled face (-1)))
        then Some (mkFaceAndRef face to ref)
        else None
    | None => None
    end.

Fixpoint getFaceAndRef_from (this : t) (headPos : Vec3.t)
         (entries : list (Vec3.t * Vec3.t * Vec3.t)) : option FaceAndRef :=
  match entries with
  | [] => None
  | entry :: rest =>
      match tryFace this headPos entry with
      | Some r => Some r
      | None => getFaceAndRef_from this headPos rest
      end
  end.

Definition getFaceAndRef (this : t) (headPos : Vec3.t) : option FaceAndRef :=
  getFaceAndRef_from this headPos (facesPos this).

Definition isEnd (this : t) (node : Node.t) : bool :=
  if isStandingIn this node then false
  else
    let headPos := Node.offset node 0.5 1.6 0.5 in
    match getFaceAndRef this headPos with
    | Some _ => true
    | None => false
    end.

Definition hasChanged (this : t) : bool * t := (Goal.hasChanged, this).

End GoalPlaceBlock.

(** ** Composite goals

    The children of a composite are goals of any class.  Each composite is
    written over the type of its children and the three methods it calls on
    them; [goal] below ties the knot. *)

Module GoalCompositeAny.

Section Children.

Variable G : Type.
Variable child_heuristic : G -> Node.t -> R.
Variable child_isEnd : G -> Node.t -> bool.
Variable child_hasChanged : G -> bool * G.

Definition new : list G := [].
Definition push (goals : list G) (goal : G) : list G := goals ++ [goal].

Definition heuristic (goals : list G) (node : Node.t) : R :=
  fold_left (fun min g => Rmin min (child_heuristic g node)) goals JS.MAX_VALUE.

Fixpoint isEnd (goals : list G) (node : Node.t) : bool :=
  match goals with
  | [] => false
  | g :: rest => if child_isEnd g node then true else isEnd rest node
  end.

(** The loop stops at the first child that reports a change: the
    children after it are not asked. *)
Fixpoint hasChanged (goals : list G) : bool * list G :=
  match goals with
  | [] => (false, [])
  | g :: rest =>
      let (c, g') := child_hasChanged g in
      if c then (true, g' :: rest)
      else let (c', rest') := hasChanged rest in (c', g' :: rest')
  end.

End Children.

End GoalCompositeAny.

Module GoalCompositeAll.

Section Children.

Variable G : Type.
Variable child_heuristic : G -> Node.t -> R.
Variable child_isEnd : G -> Node.t -> bool.
Variable child_hasChanged : G -> bool * G.

Definition new : list G := [].
Definition push (goals : list G) (goal : G) : list G := goals ++ [goal].

Definition heuristic (goals : list G) (node : Node.t) : R :=
  fold_left (fun max g => Rmax max (child_heuristic g node)) goals JS.MIN_VALUE.

Fixpoint isEnd (goals : list G) (node : Node.t) : bool :=
  match goals with
  | [] => true
  | g :: rest => if negb (child_isEnd g node) then false else isEnd rest node
  end.

Fixpoint hasChanged (goals : list G) : bool * list G :=
  match goals with
  | [] => (false, [])
  | g :: rest =>
      let (c, g') := child_hasChanged g in
      if c then (true, g' :: rest)
      else let (c', rest') := hasChanged rest in (c', g' :: rest')
  end.

End Children.

End GoalCompositeAll.

Module GoalInvert.

Section Child.

Variable G : Type.
Variable child_heuristic : G -> Node.t -> R.
Variable child_isEnd : G -> Node.t -> bool.
Variable child_hasChanged : G -> bool * G.

Definition heuristic (goal : G) (node : Node.t) : R := - child_heuristic goal node.
Definition isEnd (goal : G) (node : Node.t) : bool := negb (child_isEnd goal node).
Definition hasChanged (goal : G) : bool * G := child_hasChanged goal.

End Child.

End GoalInvert.

(** ** A goal of any class, and method dispatch *)

#[local] Set Warnings "-register-all".

Inductive goal : Type :=
| Block (g : GoalBlock.t)
| Near (g : GoalNear.t)
| XZ (g : GoalXZ.t)
| Y (g : GoalY.t)
| GetToBlock (g : GoalGetToBlock.t)
| CompositeAny (goals : list goal)
| CompositeAll (goals : list goal)
| Invert (g : goal)
| Follow (g : GoalFollow.t)
| PlaceBlock (g : GoalPlaceBlock.t).

Fixpoint heuristic (g : goal) (node : Node.t) {struct g} : R :=
  match g with
  | Block g => GoalBlock.heuristic g node
  | Near g => GoalNear.heuristic g node
  | XZ g => GoalXZ.heuristic g node
  | Y g => GoalY.heuristic g node
  | GetToBlock g => GoalGetToBlock.heuristic g node
  | CompositeAny goals => GoalCompositeAny.heuristic goal heuristic goals node
  | CompositeAll goals => GoalCompositeAll.heuristic goal heuristic goals node
  | Invert g => GoalInvert.heuristic goal heuristic g node
  | Follow g => GoalFollow.heuristic g node
  | PlaceBlock g => GoalPlaceBlock.heuristic g node
  end.

Fixpoint isEnd (g : goal) (node : Node.t) {struct g} : bool :=
  match g with
  | Block g => GoalBlock.isEnd g node
  | Near g => GoalNear.isEnd g node
  | XZ g => GoalXZ.isEnd g node
  | Y g => GoalY.isEnd g node
  | GetToBlock g => GoalGetToBlock.isEnd g node
  | CompositeAny goals => GoalCompositeAny.isEnd goal isEnd goals node
  | CompositeAll goals => GoalCompositeAll.isEnd goal isEnd goals node
  | Invert g => GoalInvert.isEnd goal isEnd g node
  | Follow g => GoalFollow.isEnd g node
  | PlaceBlock g => GoalPlaceBlock.isEnd g node
  end.

Definition lift {A : Type} (wrap : A -> goal) (r : bool * A) : bool * goal :=
  (fst r, wrap (snd r)).

Fixpoint hasChanged (h : Entity.heap) (g : goal) {struct g} : bool * goal :=
  match g with
  | Block g => lift Block (GoalBlock.hasChanged g)
  | Near g => lift Near (GoalNear.hasChanged g)
  | XZ g => lift XZ (GoalXZ.hasChanged g)
  | Y g => lift Y (GoalY.hasChanged g)
  | GetToBlock g => lift GetToBlock (GoalGetToBlock.hasChanged g)
  | CompositeAny goals =>
      lift CompositeAny (GoalCompositeAny.hasChanged goal (hasChanged h) goals)
  | CompositeAll goals =>
      lift CompositeAll (GoalCompositeAll.hasChanged goal (hasChanged h) goals)
  | Invert g => lift Invert (GoalInvert.hasChanged goal (hasChanged h) g)
  | Follow g => lift Follow (GoalFollow.hasChanged h g)
  | PlaceBlock g => lift PlaceBlock (GoalPlaceBlock.hasChanged g)
  end.

(** ** Sequences of calls

    What the search engine does with a goal: a sequence of method calls,
    each of which returns a value and leaves the goal in some state.  The
    heap is the one of the moment of the call. *)

Inductive call : Type :=
| CallHeuristic (node : Node.t)
| CallIsEnd (node : Node.t)
| CallHasChanged (h : Entity.heap).

Inductive result : Type :=
| Number (r : R)
| Boolean (b : bool).

Definition invoke (g : goal) (c : call) : result * goal :=
  match c with
  | CallHeuristic node => (Number (heuristic g node), g)
  | CallIsEnd node => (Boolean (isEnd g node), g)
  | CallHasChanged h => let r := hasChanged h g in (Boolean (fst r), snd r)
  end.

Fixpoint run (g : goal) (calls : list call) : list result * goal :=
  match calls with
  | [] => ([], g)
  | c :: rest =>
      let (r, g') := invoke g c in
      let (rs, g'') := run g' rest in
      (r :: rs, g'')
  end.

Definition positional (g : goal) : bool :=
  match g with
  | Block _ | Near _ | XZ _ | Y _ | GetToBlock _ => true
  | _ => false
  end.

(** ** Notions the properties are stated with *)

(** A world with no block shape and nothing in the way of a ray. *)
Definition emptyWorld : World.t :=
  World.mk (fun _ => World.mkBlock []) (fun _ _ _ => None).

(** The maximum of a non-empty list of numbers, [h] first. *)
Definition maximum (h : R) (t : list R) : R := fold_right Rmax h t.

(** The six cells that share a face with the cell at the origin. *)
Definition faceNeighbours : list Node.t :=
  [Node.mk 1 0 0; Node.mk (-1) 0 0; Node.mk 0 1 0;
   Node.mk 0 (-1) 0; Node.mk 0 0 1; Node.mk 0 0 (-1)].

(** The cells at adjusted Manhattan distance 1 of the origin. *)
Definition reachNeighbours : list Node.t :=
  [Node.mk 1 0 0; Node.mk (-1) 0 0; Node.mk 0 0 1; Node.mk 0 0 (-1);
   Node.mk 1 (-1) 0; Node.mk (-1) (-1) 0; Node.mk 0 (-1) 1; Node.mk 0 (-1) (-1);
   Node.mk 0 1 0; Node.mk 0 (-2) 0].

(** The Manhattan distance of [GoalGetToBlock.isEnd], with its adjustment
    of a negative [dy]. *)
Definition adjustedManhattan (dx dy dz : Z) : Z :=
  (Z.abs dx + Z.abs (if dy <? 0 then dy + 1 else dy) + Z.abs dz)%Z.

(** The squared Euclidean distance between two integer positions. *)
Definition distanceSq (x y z : Z) (node : Node.t) : Z :=
  ((x - Node.x node) * (x - Node.x node)
   + (y - Node.y node) * (y - Node.y node)
   + (z - Node.z node) * (z - Node.z node))%Z.

(** A goal to place a block at the origin against the floor below it: the
    only face is the one looking down, whose reference block is (0,-1,0),
    and the shape function gives the center of that block's top face. *)
Definition floorHit (face : Z) : World.RayHit :=
  World.mkHit (Vec3.mk 0 (-1) 0) (Some face).

Definition rayWorld (hit : option World.RayHit) : World.t :=
  World.mk (fun _ => World.mkBlock []) (fun _ _ _ => hit).

Definition topCenter (shapes : list World.Shape) (normal : Vec3.t)
           (half : option string) : list Vec3.t :=
  [Vec3.mk 0.5 1 0.5].

Definition floorOptions : GoalPlaceBlock.Options.t :=
  GoalPlaceBlock.Options.mk None (Some [Vec3.mk 0 (-1) 0]) None false None None.

Definition placeOnFloor (w : World.t) : GoalPlaceBlock.t :=
  GoalPlaceBlock.new topCenter (Vec3.mk 0 0 0) w floorOptions.

(** The eye of a bot standing at (1,0,0), and the one entry of the goal's
    [facesPos] as the constructor computes it. *)
Definition floorEye : Vec3.t := Node.offset (Node.mk 1 0 0) 0.5 1.6 0.5.

Definition floorEntry : Vec3.t * Vec3.t * Vec3.t :=
  (Vec3.mk 0 (-1) 0, Vec3.mk (0.5 + (0 + 0)) (1 + (0 + -1)) (0.5 + (0 + 0)),
   Vec3.mk (0 + 0) (0 + -1) (0 + 0)).

(** The tests one entry of [facesPos] goes through in [getFaceAndRef]. *)
Module Candidate.

Definition result (entry : Vec3.t * Vec3.t * Vec3.t) : GoalPlaceBlock.FaceAndRef :=
  let '(face, to, ref) := entry in GoalPlaceBlock.mkFaceAndRef face to ref.

Definition inRange (this : GoalPlaceBlock.t) (headPos : Vec3.t)
           (entry : Vec3.t * Vec3.t * Vec3.t) : Prop :=
  let '(_, to, _) := entry in
  Vec3.norm (Vec3.minus to headPos) <= GoalPlaceBlock.range (GoalPlaceBlock.opts this).

Definition faced (this : GoalPlaceBlock.t) (headPos : Vec3.t)
           (entry : Vec3.t * Vec3.t * Vec3.t) : Prop :=
  let '(_, to, _) := entry in
  GoalPlaceBlock.checkFacing this (Vec3.minus to headPos) = true.

(** The ray from the eye towards the target point hits the reference block
    on the face opposite to the entry's direction. *)
Definition seen (this : GoalPlaceBlock.t) (headPos : Vec3.t)
           (entry : Vec3.t * Vec3.t * Vec3.t) : Prop :=
  let '(face, to, ref) := entry in
  exists block,
    World.raycast (GoalPlaceBlock.world this) headPos
                  (Vec3.normalize (Vec3.minus to headPos))
                  (GoalPlaceBlock.range (GoalPlaceBlock.opts this)) = Some block
    /\ World.position block = ref
    /\ World.face block = vectorToDirection (Vec3.scaled face (-1)).

End Candidate.

(** The minimum of a non-empty list of numbers, [h] first. *)
Definition minimum (h : R) (t : list R) : R := fold_right Rmin h t.

(** Whether a [GoalFollow] sits somewhere in the tree of a goal. *)
Fixpoint hasFollow (g : goal) : bool :=
  match g with
  | Follow _ => true
  | CompositeAny goals | CompositeAll goals => existsb hasFollow goals
  | Invert g => hasFollow g
  | _ => false
  end.

(** Followers of entities captured at the origin with range 3, and a heap
    in which every entity has walked ten blocks east. *)
Definition atOrigin : Entity.heap := fun _ => Entity.mk (Vec3.mk 0 0 0).
Definition walkedEast : Entity.heap := fun _ => Entity.mk (Vec3.mk 10 0 0).
Definition follower (e : Entity.ref) : goal := Follow (GoalFollow.new atOrigin e 3).

(** A placement goal with its world replaced, everything else kept. *)
Definition withWorld (this : GoalPlaceBlock.t) (w : World.t) : GoalPlaceBlock.t :=
  GoalPlaceBlock.mk (GoalPlaceBlock.pos this) w (GoalPlaceBlock.opts this)
                    (GoalPlaceBlock.facesPos this).

(** The eye of a bot whose feet are in the cell of a node. *)
Definition eyeOf (node : Node.t) : Vec3.t := Node.offset node 0.5 1.6 0.5.

(** The quadrant a horizontal bearing falls in, as an index of the facing
    names ([Some 0] for north, 1 east, 2 south, 3 west), when the direction
    lies strictly inside one of the four sectors of 90 degrees around the
    axes; [None] on the diagonals and for a direction without horizontal
    part. *)
Definition cardinal (dir : Vec3.t) : option Z :=
  if JS.ltb (Rabs (Vec3.x dir)) (- Vec3.z dir) then Some 0%Z
  else if JS.ltb (Rabs (Vec3.z dir)) (Vec3.x dir) then Some 1%Z
  else if JS.ltb (Rabs (Vec3.x dir)) (Vec3.z dir) then Some 2%Z
  else if JS.ltb (Rabs (Vec3.z dir)) (- Vec3.x dir) then Some 3%Z
  else None.

(** * Properties *)

(** ** Comparisons and [Math] *)

Lemma ltb_true (a b : R) : JS.ltb a b = true <-> a < b.
Proof. unfold JS.ltb. destruct (Rlt_dec a b); split; intros; try easy. Qed.

Lemma ltb_false (a b : R) : JS.ltb a b = false <-> b <= a.
Proof.
  unfold JS.ltb. destruct (Rlt_dec a b); split; intros; try easy; lra.
Qed.

Lemma gtb_true (a b : R) : JS.gtb a b = true <-> b < a.
Proof. apply ltb_true. Qed.

Lemma gtb_false (a b : R) : JS.gtb a b = false <-> a <= b.
Proof. apply ltb_false. Qed.

Lemma leb_true (a b : R) : JS.leb a b = true <-> a <= b.
Proof. unfold JS.leb. destruct (Rle_dec a b); split; intros; try easy. Qed.


Lemma eqb_true (a b : R) : JS.eqb a b = true <-> a = b.
Proof. unfold JS.eqb. destruct (Req_dec_T a b); split; intros; try easy. Qed.

Lemma eqb_refl (a : R) : JS.eqb a a = true.
Proof. now apply eqb_true. Qed.

Lemma floor_IZR (k : Z) : JS.floor (IZR k) = k.
Proof. apply ZfloorZ. Qed.

Lemma floor_between (k : Z) (a : R) : IZR k <= a < IZR k + 1 -> JS.floor a = k.
Proof. apply Zfloor_eq. Qed.

Lemma MIN_VALUE_pos : 0 < JS.MIN_VALUE.
Proof. unfold JS.MIN_VALUE. apply Rinv_0_lt_compat, pow_lt. lra. Qed.

Lemma equals_true (v w : Vec3.t) : Vec3.equals v w = true <-> v = w.
Proof.
  unfold Vec3.equals. rewrite !andb_true_iff, !eqb_true.
  destruct v, w; simpl. split.
  - intros [[-> ->] ->]. reflexivity.
  - intros E. injection E as -> -> ->. auto.
Qed.

Lemma strict_eq_true (a b : option Z) : strict_eq a b = true <-> a = b.
Proof.
  destruct a, b; simpl; split; intros E; try easy.
  - apply Z.eqb_eq in E. now subst.
  - injection E as ->. apply Z.eqb_refl.
Qed.

(** [distanceXZ] along one axis is the absolute value. *)
Lemma distanceXZ_0_r (dx : R) : distanceXZ dx 0 = Rabs dx.
Proof.
  unfold distanceXZ. rewrite Rabs_R0, Rminus_0_r, Rabs_Rabsolu.
  rewrite Rmin_right by apply Rabs_pos. lra.
Qed.

Lemma distanceXZ_sym (dx dz : R) : distanceXZ dx dz = distanceXZ dz dx.
Proof.
  unfold distanceXZ. rewrite (Rmin_comm (Rabs dx)), (Rabs_minus_sym (Rabs dx)).
  reflexivity.
Qed.

(** ** Composite goals *)

Lemma Rmax_swap (a b c : R) : Rmax a (Rmax b c) = Rmax b (Rmax a c).
Proof. rewrite !Rmax_assoc, (Rmax_comm a b). reflexivity. Qed.

Lemma fold_right_Rmax_init (a b : R) (l : list R) :
  fold_right Rmax (Rmax a b) l = Rmax b (fold_right Rmax a l).
Proof.
  induction l as [|k l IH]; simpl.
  - apply Rmax_comm.
  - rewrite IH. apply Rmax_swap.
Qed.

(** What the loop of [GoalCompositeAll.heuristic] computes: the maximum of
    the children's values and of the initial value. *)
Lemma CompositeAll_heuristic_fold (G : Type) (f : G -> Node.t -> R)
      (goals : list G) (node : Node.t) (init : R) :
  fold_left (fun max g => Rmax max (f g node)) goals init
  = fold_right Rmax init (map (fun g => f g node) goals).
Proof.
  revert init. induction goals as [|g rest IH]; intros init; simpl.
  - reflexivity.
  - rewrite IH. apply fold_right_Rmax_init.
Qed.

Lemma maximum_floor (a h : R) (t : list R) :
  fold_right Rmax a (h :: t) = Rmax a (maximum h t).
Proof.
  unfold maximum. simpl. induction t as [|k t IH]; simpl.
  - apply Rmax_comm.
  - rewrite Rmax_swap, IH. apply Rmax_swap.
Qed.

Lemma CompositeAll_heuristic_spec (g : goal) (goals : list goal) (node : Node.t) :
  heuristic (CompositeAll (g :: goals)) node
  = Rmax JS.MIN_VALUE
         (maximum (heuristic g node) (map (fun g' => heuristic g' node) goals)).
Proof.
  cbn [heuristic]. unfold GoalCompositeAll.heuristic.
  rewrite CompositeAll_heuristic_fold. apply (maximum_floor _ _ _).
Qed.

(** Where the loop agrees with the maximum of the children: as soon as one
    child's value reaches [Number.MIN_VALUE]. *)
Lemma CompositeAll_heuristic_max (g : goal) (goals : list goal) (node : Node.t) :
  JS.MIN_VALUE <= maximum (heuristic g node) (map (fun g' => heuristic g' node) goals) ->
  heuristic (CompositeAll (g :: goals)) node
  = maximum (heuristic g node) (map (fun g' => heuristic g' node) goals).
Proof.
  intros H. rewrite CompositeAll_heuristic_spec. now apply Rmax_right.
Qed.

Lemma GoalBlock_heuristic_step :
  heuristic (Block (GoalBlock.new 0 0 0)) (Node.mk 1 0 0) = 1.
Proof.
  cbn [heuristic]. unfold GoalBlock.heuristic, GoalBlock.new.
  rewrite !floor_IZR. cbn [GoalBlock.x GoalBlock.y GoalBlock.z Node.x Node.y Node.z].
  replace (0 - 0)%Z with 0%Z by lia. replace (0 - 1)%Z with (-1)%Z by lia.
  rewrite distanceXZ_0_r. simpl Z.abs.
  rewrite Rabs_left by lra. lra.
Qed.

(** C1 (the code at the failing input).  With the single child
    [GoalInvert(GoalBlock(0,0,0))] and the node (1,0,0) the child's heuristic
    is -1, yet [GoalCompositeAll.heuristic] returns [Number.MIN_VALUE], the
    positive value its loop starts from, and not the maximum -1 of the
    children's values. *)
Theorem CompositeAll_heuristic_negative_child :
  let child := Invert (Block (GoalBlock.new 0 0 0)) in
  let node := Node.mk 1 0 0 in
  heuristic child node = -1
  /\ heuristic (CompositeAll [child]) node = JS.MIN_VALUE
  /\ heuristic (CompositeAll [child]) node <> maximum (heuristic child node) [].
Proof.
  intros child node.
  assert (Hc : heuristic child node = -1).
  { unfold child, node. cbn [heuristic]. unfold GoalInvert.heuristic.
    rewrite GoalBlock_heuristic_step. reflexivity. }
  assert (Ha : heuristic (CompositeAll [child]) node = JS.MIN_VALUE).
  { rewrite CompositeAll_heuristic_spec. unfold maximum. cbn [map fold_right].
    rewrite Hc. apply Rmax_left. pose proof MIN_VALUE_pos. lra. }
  repeat split; trivial.
  rewrite Ha, Hc. unfold maximum. cbn [fold_right]. pose proof MIN_VALUE_pos. lra.
Qed.

(** The same start value shows with a child that is satisfied: the
    composite of [GoalBlock(0,0,0)] alone does not return 0 at the target. *)
Lemma CompositeAll_heuristic_at_target :
  heuristic (Block (GoalBlock.new 0 0 0)) (Node.mk 0 0 0) = 0
  /\ heuristic (CompositeAll [Block (GoalBlock.new 0 0 0)]) (Node.mk 0 0 0) = JS.MIN_VALUE.
Proof.
  assert (H0 : heuristic (Block (GoalBlock.new 0 0 0)) (Node.mk 0 0 0) = 0).
  { cbn [heuristic]. unfold GoalBlock.heuristic, GoalBlock.new.
    rewrite !floor_IZR. cbn [GoalBlock.x GoalBlock.y GoalBlock.z Node.x Node.y Node.z].
    replace (0 - 0)%Z with 0%Z by lia.
    rewrite distanceXZ_0_r, Rabs_R0. simpl. lra. }
  split; [exact H0|].
  rewrite CompositeAll_heuristic_spec. unfold maximum. cbn [map fold_right].
  rewrite H0. apply Rmax_left. pose proof MIN_VALUE_pos. lra.
Qed.

(** C10.  With no child, [GoalCompositeAll.isEnd] is true at every node and
    [GoalCompositeAny.isEnd] is false at every node. *)
Theorem Composite_isEnd_empty (node : Node.t) :
  isEnd (CompositeAll (GoalCompositeAll.new goal)) node = true
  /\ isEnd (CompositeAny (GoalCompositeAny.new goal)) node = false.
Proof. split; reflexivity. Qed.

(** [isEnd] of the composites over any children: a conjunction and a
    disjunction. *)
Lemma CompositeAll_isEnd_forallb (goals : list goal) (node : Node.t) :
  isEnd (CompositeAll goals) node = forallb (fun g => isEnd g node) goals.
Proof.
  cbn [isEnd]. induction goals as [|g rest IH]; simpl; [reflexivity|].
  rewrite IH. now destruct (isEnd g node).
Qed.

Lemma CompositeAny_isEnd_existsb (goals : list goal) (node : Node.t) :
  isEnd (CompositeAny goals) node = existsb (fun g => isEnd g node) goals.
Proof.
  cbn [isEnd]. induction goals as [|g rest IH]; simpl; [reflexivity|].
  rewrite IH. now destruct (isEnd g node).
Qed.

(** ** [GoalGetToBlock] *)

Lemma GetToBlock_isEnd_manhattan (x y z : Z) (node : Node.t) :
  GoalGetToBlock.isEnd (GoalGetToBlock.mk x y z) node = true
  <-> adjustedManhattan (Node.x node - x) (Node.y node - y) (Node.z node - z) = 1%Z.
Proof.
  unfold GoalGetToBlock.isEnd, adjustedManhattan. simpl. apply Z.eqb_eq.
Qed.

Lemma adjustedManhattan_one (dx dy dz : Z) :
  adjustedManhattan dx dy dz = 1%Z
  <-> In (Node.mk dx dy dz) reachNeighbours.
Proof.
  unfold adjustedManhattan, reachNeighbours. simpl. split.
  - intros H. destruct (Z.ltb_spec dy 0).
    + assert (C : ((dx = 1 /\ dy = -1 /\ dz = 0) \/ (dx = -1 /\ dy = -1 /\ dz = 0)
                  \/ (dx = 0 /\ dy = -1 /\ dz = 1) \/ (dx = 0 /\ dy = -1 /\ dz = -1)
                  \/ (dx = 0 /\ dy = -2 /\ dz = 0))%Z) by lia.
      destruct C as [(-> & -> & ->)|[(-> & -> & ->)|[(-> & -> & ->)|[(-> & -> & ->)|(-> & -> & ->)]]]];
        tauto.
    + assert (C : ((dx = 1 /\ dy = 0 /\ dz = 0) \/ (dx = -1 /\ dy = 0 /\ dz = 0)
                  \/ (dx = 0 /\ dy = 0 /\ dz = 1) \/ (dx = 0 /\ dy = 0 /\ dz = -1)
                  \/ (dx = 0 /\ dy = 1 /\ dz = 0))%Z) by lia.
      destruct C as [(-> & -> & ->)|[(-> & -> & ->)|[(-> & -> & ->)|[(-> & -> & ->)|(-> & -> & ->)]]]];
        tauto.
  - intros H.
    repeat (destruct H as [H|H]; [injection H as <- <- <-; reflexivity|]).
    destruct H.
Qed.

(** C3 (as stated, refuted).  The cell directly below the target shares a
    face with it and is not an end; the cell at (1,-1,0) shares no face with
    it and is an end. *)
Lemma GetToBlock_isEnd_not_faceNeighbours :
  let g := GetToBlock (GoalGetToBlock.new 0 0 0) in
  (In (Node.mk 0 (-1) 0) faceNeighbours /\ isEnd g (Node.mk 0 (-1) 0) = false)
  /\ (~ In (Node.mk 1 (-1) 0) faceNeighbours /\ isEnd g (Node.mk 1 (-1) 0) = true).
Proof.
  cbn [isEnd]. unfold GoalGetToBlock.new. rewrite !floor_IZR.
  repeat split; try reflexivity.
  - simpl. tauto.
  - simpl. intros H.
    repeat (destruct H as [H|H]; [discriminate H|]). exact H.
Qed.

(** C3 (amended).  For the goal built on (0,0,0), [isEnd] is true exactly
    where the adjusted Manhattan distance is 1, that is on the ten cells of
    [reachNeighbours]: the four horizontal neighbours at the target's level
    and the four one level below, the cell above, and the cell two below.
    It is false at the target cell and at the cell directly below it. *)
Theorem GetToBlock_isEnd_origin (node : Node.t) :
  let g := GetToBlock (GoalGetToBlock.new 0 0 0) in
  (isEnd g node = true
   <-> adjustedManhattan (Node.x node) (Node.y node) (Node.z node) = 1%Z)
  /\ (isEnd g node = true <-> In node reachNeighbours)
  /\ isEnd g (Node.mk 0 0 0) = false
  /\ isEnd g (Node.mk 0 (-1) 0) = false.
Proof.
  cbn [isEnd]. unfold GoalGetToBlock.new. rewrite !floor_IZR.
  assert (E : GoalGetToBlock.isEnd (GoalGetToBlock.mk 0 0 0) node = true
              <-> adjustedManhattan (Node.x node) (Node.y node) (Node.z node) = 1%Z).
  { rewrite GetToBlock_isEnd_manhattan, !Z.sub_0_r. reflexivity. }
  repeat split; try reflexivity; try apply E.
  - intros H. apply E, adjustedManhattan_one in H. now destruct node.
  - intros H. apply E, adjustedManhattan_one. now destruct node.
Qed.

(** ** [GoalNear] *)


(** ** [GoalFollow] *)

(** C5.  [GoalFollow.hasChanged] floors the entity's position of the moment
    and compares its squared distance to the captured target with
    [rangeSq]: beyond it, the call returns true and the target becomes the
    floored position; otherwise it returns false and the goal is as it was.
    The entity reference and [rangeSq] are never written. *)
Theorem GoalFollow_hasChanged_spec (h : Entity.heap) (this : GoalFollow.t) :
  let p := Entity.floored (h (GoalFollow.entity this)) in
  let d2 := distanceSq (GoalFollow.x this) (GoalFollow.y this) (GoalFollow.z this) p in
  (GoalFollow.rangeSq this < IZR d2 ->
   GoalFollow.hasChanged h this
   = (true, GoalFollow.mk (GoalFollow.entity this) (Node.x p) (Node.y p) (Node.z p)
                          (GoalFollow.rangeSq this)))
  /\ (IZR d2 <= GoalFollow.rangeSq this ->
      GoalFollow.hasChanged h this = (false, this)).
Proof.
  intros p d2. unfold GoalFollow.hasChanged.
  fold p. fold (distanceSq (GoalFollow.x this) (GoalFollow.y this) (GoalFollow.z this) p).
  fold d2. split; intros H.
  - apply gtb_true in H. now rewrite H.
  - apply gtb_false in H. now rewrite H.
Qed.

(** Dispatch through [goal] is the same call. *)
Lemma Follow_hasChanged_dispatch (h : Entity.heap) (this : GoalFollow.t) :
  hasChanged h (Follow this)
  = (fst (GoalFollow.hasChanged h this), Follow (snd (GoalFollow.hasChanged h this))).
Proof. reflexivity. Qed.

(** After a call that reported a change, a second call on an entity that has
    not moved reports none: the target is the entity's cell. *)
Lemma GoalFollow_hasChanged_twice (h : Entity.heap) (this : GoalFollow.t) :
  0 <= GoalFollow.rangeSq this ->
  fst (GoalFollow.hasChanged h this) = true ->
  GoalFollow.hasChanged h (snd (GoalFollow.hasChanged h this))
  = (false, snd (GoalFollow.hasChanged h this)).
Proof.
  intros Hr Ht. unfold GoalFollow.hasChanged at 2 3.
  unfold GoalFollow.hasChanged in Ht.
  destruct (JS.gtb _ (GoalFollow.rangeSq this)); [|discriminate Ht].
  cbn [snd]. unfold GoalFollow.hasChanged.
  cbn [GoalFollow.entity GoalFollow.x GoalFollow.y GoalFollow.z GoalFollow.rangeSq].
  rewrite !Z.sub_diag. cbn [Z.mul Z.add].
  assert (G : JS.gtb 0 (GoalFollow.rangeSq this) = false) by now apply gtb_false.
  rewrite G. reflexivity.
Qed.

(** A goal built by the constructor has a non-negative [rangeSq]. *)
Lemma GoalFollow_new_rangeSq (h : Entity.heap) (e : Entity.ref) (range : R) :
  0 <= GoalFollow.rangeSq (GoalFollow.new h e range).
Proof. unfold GoalFollow.new. cbn [GoalFollow.rangeSq]. nra. Qed.

(** ** Positional goals keep no state *)

Lemma positional_invoke (g : goal) (c : call) :
  positional g = true -> snd (invoke g c) = g.
Proof.
  intros P. destruct c; try reflexivity.
  destruct g; try discriminate P; reflexivity.
Qed.

Lemma positional_hasChanged (h : Entity.heap) (g : goal) :
  positional g = true -> hasChanged h g = (false, g).
Proof. intros P. destruct g; try discriminate P; reflexivity. Qed.

(** C8.  For a positional goal (exact block, within radius, column,
    altitude, adjacent) and any sequence of [heuristic], [isEnd] and
    [hasChanged] calls: the goal after the sequence is the goal before it,
    each call returns what the same call returns on the initial goal (so a
    repeated call on a node repeats its result), and each [hasChanged]
    returns false. *)
Theorem positional_stateless (g : goal) (calls : list call) :
  positional g = true ->
  snd (run g calls) = g
  /\ fst (run g calls) = map (fun c => fst (invoke g c)) calls
  /\ (forall h, fst (invoke g (CallHasChanged h)) = Boolean false).
Proof.
  intros P. split; [|split].
  - induction calls as [|c rest IH]; [reflexivity|].
    simpl. pose proof (positional_invoke g c P) as E.
    destruct (invoke g c) as [r g']. simpl in E. subst g'.
    destruct (run g rest) as [rs g'']. exact IH.
  - induction calls as [|c rest IH]; [reflexivity|].
    simpl. pose proof (positional_invoke g c P) as E.
    destruct (invoke g c) as [r g'] eqn:I. simpl in E. subst g'.
    destruct (run g rest) as [rs g'']. simpl in *. now rewrite IH.
  - intros h. unfold invoke. now rewrite positional_hasChanged.
Qed.

(** The statement above on the goal adjacent to the origin and four calls. *)
Lemma positional_stateless_witness :
  let g := GetToBlock (GoalGetToBlock.new 0 0 0) in
  let calls := [CallIsEnd (Node.mk 1 0 0); CallHasChanged (fun _ => Entity.mk (Vec3.mk 0 0 0));
                CallHeuristic (Node.mk 2 0 0); CallIsEnd (Node.mk 1 0 0)] in
  snd (run g calls) = g
  /\ fst (run g calls) = map (fun c => fst (invoke g c)) calls
  /\ (forall h, fst (invoke g (CallHasChanged h)) = Boolean false).
Proof.
  intros g calls. apply (positional_stateless g calls). reflexivity.
Defined.

(** ** [GoalPlaceBlock]: the constructor's options *)

Section PlaceBlockOptions.

Variable getShapeFaceCenters :
  list World.Shape -> Vec3.t -> option string -> list Vec3.t.
Variables (pos : Vec3.t) (world : World.t).

Local Abbreviation new := (GoalPlaceBlock.new getShapeFaceCenters pos world).

(** C9.  An [options.range] of 0 is falsy and is replaced by the default
    5, as a missing range is; an [options.LOS] of false is kept, since
    only the presence of the key is tested. *)
Theorem GoalPlaceBlock_new_range_zero
        (range : option R) (faces : option (list Vec3.t)) (facing : option string)
        (facing3D : bool) (half : option string) (LOS : option bool) :
  GoalPlaceBlock.range
    (GoalPlaceBlock.opts
       (new (GoalPlaceBlock.Options.mk (Some 0) faces facing facing3D half LOS))) = 5
  /\ GoalPlaceBlock.range
       (GoalPlaceBlock.opts
          (new (GoalPlaceBlock.Options.mk None faces facing facing3D half LOS))) = 5
  /\ GoalPlaceBlock.LOS
       (GoalPlaceBlock.opts
          (new (GoalPlaceBlock.Options.mk range faces facing facing3D half (Some false))))
     = false.
Proof.
  unfold GoalPlaceBlock.new, GoalPlaceBlock.fillOptions.
  cbn [GoalPlaceBlock.opts GoalPlaceBlock.range GoalPlaceBlock.LOS
       GoalPlaceBlock.Options.range GoalPlaceBlock.Options.LOS].
  unfold JS.truthy. rewrite eqb_refl. auto.
Qed.

(** The other cases of the two defaults. *)
Lemma GoalPlaceBlock_new_range_LOS (o : GoalPlaceBlock.Options.t) (r : R) :
  (GoalPlaceBlock.Options.range o = Some r -> r <> 0 ->
   GoalPlaceBlock.range (GoalPlaceBlock.opts (new o)) = r)
  /\ (GoalPlaceBlock.Options.LOS o = None ->
      GoalPlaceBlock.LOS (GoalPlaceBlock.opts (new o)) = true).
Proof.
  unfold GoalPlaceBlock.new, GoalPlaceBlock.fillOptions.
  cbn [GoalPlaceBlock.opts GoalPlaceBlock.range GoalPlaceBlock.LOS]. split.
  - intros -> Hr. unfold JS.truthy.
    destruct (JS.eqb r 0) eqn:E; [apply eqb_true in E; contradiction | reflexivity].
  - intros ->. reflexivity.
Qed.

Lemma indexOf_from_absent (i : Z) (l : list string) (s : string) :
  ~ In s l -> JS.indexOf_from i l s = (-1)%Z.
Proof.
  revert i. induction l as [|k l IH]; intros i N; simpl; [reflexivity|].
  destruct (String.eqb_spec k s) as [->|_].
  - exfalso. apply N. now left.
  - apply IH. intros I. apply N. now right.
Qed.

Lemma checkFacing_unconstrained (this : GoalPlaceBlock.t) (dir : Vec3.t) :
  (GoalPlaceBlock.facing (GoalPlaceBlock.opts this) < 0)%Z ->
  GoalPlaceBlock.checkFacing this dir = true.
Proof.
  intros H. unfold GoalPlaceBlock.checkFacing.
  apply Z.ltb_lt in H. now rewrite H.
Qed.

(** C6.  A facing string outside north, east, south, west, up and down
    makes the constructor store the index -1, without failing, and with
    that index [checkFacing] accepts every direction. *)
Theorem GoalPlaceBlock_unknown_facing (o : GoalPlaceBlock.Options.t) (s : string) :
  GoalPlaceBlock.Options.facing o = Some s ->
  ~ In s GoalPlaceBlock.facingNames ->
  GoalPlaceBlock.facing (GoalPlaceBlock.opts (new o)) = (-1)%Z
  /\ forall dir, GoalPlaceBlock.checkFacing (new o) dir = true.
Proof.
  intros Hs N.
  assert (F : GoalPlaceBlock.facing (GoalPlaceBlock.opts (new o)) = (-1)%Z).
  { unfold GoalPlaceBlock.new, GoalPlaceBlock.fillOptions.
    cbn [GoalPlaceBlock.opts GoalPlaceBlock.facing].
    rewrite Hs. now apply indexOf_from_absent. }
  split; [exact F|]. intros dir. apply checkFacing_unconstrained. lia.
Qed.

(** A missing facing is the same index. *)
Lemma GoalPlaceBlock_missing_facing (o : GoalPlaceBlock.Options.t) :
  GoalPlaceBlock.Options.facing o = None ->
  GoalPlaceBlock.facing (GoalPlaceBlock.opts (new o)) = (-1)%Z.
Proof.
  intros Hs. unfold GoalPlaceBlock.new, GoalPlaceBlock.fillOptions.
  cbn [GoalPlaceBlock.opts GoalPlaceBlock.facing]. now rewrite Hs.
Qed.

(** Each of the six names is stored as its index in the list. *)
Lemma GoalPlaceBlock_known_facing
      (range : option R) (faces : option (list Vec3.t))
      (facing3D : bool) (half : option string) (LOS : option bool) :
  map (fun s => GoalPlaceBlock.facing
                  (GoalPlaceBlock.opts
                     (new (GoalPlaceBlock.Options.mk range faces (Some s) facing3D half LOS))))
      GoalPlaceBlock.facingNames
  = [0; 1; 2; 3; 4; 5]%Z.
Proof. reflexivity. Qed.

End PlaceBlockOptions.

(** The statement above for the facing string [sideways]. *)
Lemma GoalPlaceBlock_unknown_facing_witness :
  let o := GoalPlaceBlock.Options.mk None None (Some "sideways"%string) false None None in
  let g := GoalPlaceBlock.new (fun _ _ _ => []) (Vec3.mk 0 0 0) emptyWorld o in
  GoalPlaceBlock.facing (GoalPlaceBlock.opts g) = (-1)%Z
  /\ forall dir, GoalPlaceBlock.checkFacing g dir = true.
Proof.
  intros o g.
  apply (GoalPlaceBlock_unknown_facing (fun _ _ _ => []) (Vec3.mk 0 0 0) emptyWorld o
                                       "sideways"%string).
  - reflexivity.
  - simpl. intros H.
    repeat (destruct H as [H|H]; [discriminate H|]). exact H.
Defined.

(** ** [GoalPlaceBlock.getFaceAndRef] *)

Section LineOfSight.

Variables (this : GoalPlaceBlock.t) (headPos : Vec3.t).

(** One turn of the loop when [LOS] is set: the entry is returned exactly
    when it is in range, faced, and seen by the ray. *)
Lemma tryFace_LOS (entry : Vec3.t * Vec3.t * Vec3.t) (r : GoalPlaceBlock.FaceAndRef) :
  GoalPlaceBlock.LOS (GoalPlaceBlock.opts this) = true ->
  GoalPlaceBlock.tryFace this headPos entry = Some r
  <-> r = Candidate.result entry
      /\ Candidate.inRange this headPos entry
      /\ Candidate.faced this headPos entry
      /\ Candidate.seen this headPos entry.
Proof.
  intros L. destruct entry as [[face to] ref].
  unfold GoalPlaceBlock.tryFace, Candidate.result, Candidate.inRange,
    Candidate.faced, Candidate.seen.
  rewrite L. cbn [negb].
  destruct (JS.gtb _ _) eqn:Er.
  { apply gtb_true in Er. split; [discriminate|]. intros (_ & H & _). lra. }
  apply gtb_false in Er.
  destruct (GoalPlaceBlock.checkFacing this _) eqn:Ef; cbn [negb].
  2:{ split; [discriminate|]. intros (_ & _ & H & _). discriminate H. }
  destruct (World.raycast _ _ _ _) as [block|] eqn:Eray.
  2:{ split; [discriminate|]. intros (_ & _ & _ & b & H & _). discriminate H. }
  destruct (Vec3.equals _ _ && strict_eq _ _) eqn:Eb.
  - apply andb_true_iff in Eb. destruct Eb as [Ep Ei].
    apply equals_true in Ep. apply strict_eq_true in Ei.
    split.
    + intros H. injection H as <-. repeat split; trivial. now exists block.
    + intros (-> & _). reflexivity.
  - split; [discriminate|]. intros (_ & _ & _ & b & H & Hp & Hi).
    injection H as <-.
    apply equals_true in Hp. apply strict_eq_true in Hi.
    rewrite Hp, Hi in Eb. discriminate Eb.
Qed.

(** The loop returns the result of the first entry that passes. *)
Lemma getFaceAndRef_from_first (entries : list (Vec3.t * Vec3.t * Vec3.t))
      (r : GoalPlaceBlock.FaceAndRef) :
  GoalPlaceBlock.getFaceAndRef_from this headPos entries = Some r
  <-> exists before entry after,
      entries = before ++ entry :: after
      /\ Forall (fun e => GoalPlaceBlock.tryFace this headPos e = None) before
      /\ GoalPlaceBlock.tryFace this headPos entry = Some r.
Proof.
  induction entries as [|e rest IH]; simpl.
  - split; [discriminate|]. intros (b & e & a & H & _). now destruct b.
  - destruct (GoalPlaceBlock.tryFace this headPos e) as [r'|] eqn:E.
    + split.
      * intros H. injection H as <-. exists [], e, rest. repeat split; auto.
      * intros (b & e' & a & H & Hb & He). destruct b as [|e0 b].
        -- injection H as <- <-. congruence.
        -- injection H as <- ->. inversion Hb; congruence.
    + rewrite IH. split.
      * intros (b & e' & a & -> & Hb & He). exists (e :: b), e', a.
        repeat split; auto.
      * intros (b & e' & a & H & Hb & He). destruct b as [|e0 b].
        -- injection H as <- <-. congruence.
        -- injection H as <- ->. exists b, e', a. inversion Hb. auto.
Qed.

Lemma getFaceAndRef_from_none (entries : list (Vec3.t * Vec3.t * Vec3.t)) :
  GoalPlaceBlock.getFaceAndRef_from this headPos entries = None
  <-> Forall (fun e => GoalPlaceBlock.tryFace this headPos e = None) entries.
Proof.
  induction entries as [|e rest IH]; simpl.
  - split; auto.
  - destruct (GoalPlaceBlock.tryFace this headPos e) eqn:E.
    + split; [discriminate|]. intros H. inversion H. congruence.
    + rewrite IH. split; intros H; [now constructor | now inversion H].
Qed.

(** C4.  With [LOS] set, an entry of [facesPos] is accepted by the loop
    only when the ray cast from the eye along the normalized eye-to-target
    vector reports a hit whose position is the entry's reference block
    and whose face is the face index of the opposite of the entry's
    direction; an entry whose ray reports another block, another face or
    no hit is passed over.  Hence what [getFaceAndRef] returns is an entry
    so confirmed, and it returns one as soon as some entry in range and
    faced is confirmed. *)
Theorem getFaceAndRef_LOS :
  GoalPlaceBlock.LOS (GoalPlaceBlock.opts this) = true ->
  (forall entry,
      ~ Candidate.seen this headPos entry ->
      GoalPlaceBlock.tryFace this headPos entry = None)
  /\ (forall r,
         GoalPlaceBlock.getFaceAndRef this headPos = Some r ->
         exists entry,
           In entry (GoalPlaceBlock.facesPos this)
           /\ r = Candidate.result entry
           /\ Candidate.seen this headPos entry)
  /\ ((exists entry,
          In entry (GoalPlaceBlock.facesPos this)
          /\ Candidate.inRange this headPos entry
          /\ Candidate.faced this headPos entry
          /\ Candidate.seen this headPos entry) ->
      GoalPlaceBlock.getFaceAndRef this headPos <> None).
Proof.
  intros L. split; [|split].
  - intros entry N.
    destruct (GoalPlaceBlock.tryFace this headPos entry) as [r|] eqn:E; [|reflexivity].
    apply (tryFace_LOS entry r L) in E. tauto.
  - intros r H. apply getFaceAndRef_from_first in H.
    destruct H as (b & e & a & Hl & _ & He).
    apply (tryFace_LOS e r L) in He. exists e. rewrite Hl.
    split; [apply in_elt | tauto].
  - intros (e & Hin & Hr & Hf & Hs) Hnone.
    apply getFaceAndRef_from_none in Hnone.
    rewrite Forall_forall in Hnone. specialize (Hnone e Hin).
    assert (T : GoalPlaceBlock.tryFace this headPos e = Some (Candidate.result e))
      by (apply (tryFace_LOS e _ L); auto).
    congruence.
Qed.

End LineOfSight.

(** The statement above for the goal on the floor, whose [LOS] is the
    default, seen from the eye of a bot standing at (1,0,0). *)
Lemma getFaceAndRef_LOS_witness :
  let this := placeOnFloor (rayWorld (Some (floorHit 1))) in
  let headPos := Node.offset (Node.mk 1 0 0) 0.5 1.6 0.5 in
  (forall entry,
      ~ Candidate.seen this headPos entry ->
      GoalPlaceBlock.tryFace this headPos entry = None)
  /\ (forall r,
         GoalPlaceBlock.getFaceAndRef this headPos = Some r ->
         exists entry,
           In entry (GoalPlaceBlock.facesPos this)
           /\ r = Candidate.result entry
           /\ Candidate.seen this headPos entry)
  /\ ((exists entry,
          In entry (GoalPlaceBlock.facesPos this)
          /\ Candidate.inRange this headPos entry
          /\ Candidate.faced this headPos entry
          /\ Candidate.seen this headPos entry) ->
      GoalPlaceBlock.getFaceAndRef this headPos <> None).
Proof.
  intros this headPos. apply (getFaceAndRef_LOS this headPos). reflexivity.
Defined.

(** The goal on the floor, seen from the eye of a bot standing at (1,0,0):
    its list of candidates has one entry. *)
Lemma placeOnFloor_facesPos (w : World.t) :
  GoalPlaceBlock.facesPos (placeOnFloor w) = [floorEntry].
Proof.
  unfold placeOnFloor, GoalPlaceBlock.new, floorOptions, topCenter, floorEntry.
  cbn [GoalPlaceBlock.facesPos GoalPlaceBlock.fillOptions GoalPlaceBlock.faces
       GoalPlaceBlock.Options.faces flat_map map app].
  unfold Vec3.add, Vec3.plus, Vec3.floored. cbn [Vec3.x Vec3.y Vec3.z].
  rewrite floor_IZR. reflexivity.
Qed.

Lemma placeOnFloor_inRange (w : World.t) :
  Candidate.inRange (placeOnFloor w) floorEye floorEntry.
Proof.
  unfold Candidate.inRange, floorEntry, floorEye, Node.offset, Node.toVec3,
    Vec3.offset, Vec3.minus, Vec3.norm.
  cbn [Vec3.x Vec3.y Vec3.z Node.x Node.y Node.z].
  unfold placeOnFloor, GoalPlaceBlock.new, floorOptions.
  cbn [GoalPlaceBlock.opts GoalPlaceBlock.fillOptions GoalPlaceBlock.range
       GoalPlaceBlock.Options.range].
  rewrite <- (sqrt_square 5) by lra. apply sqrt_le_1_alt. lra.
Qed.

Lemma placeOnFloor_faced (w : World.t) :
  Candidate.faced (placeOnFloor w) floorEye floorEntry.
Proof.
  unfold Candidate.faced, floorEntry. now apply checkFacing_unconstrained.
Qed.

Lemma placeOnFloor_clicked_face :
  vectorToDirection (Vec3.scaled (Vec3.mk 0 (-1) 0) (-1)) = Some 1%Z.
Proof.
  unfold vectorToDirection, Vec3.scaled. cbn [Vec3.x Vec3.y Vec3.z].
  replace (JS.ltb (-1 * -1) 0) with false by (symmetry; apply ltb_false; lra).
  replace (JS.gtb (-1 * -1) 0) with true by (symmetry; apply gtb_true; lra).
  reflexivity.
Qed.

(** The ray reports the floor block and its top face: the entry is
    returned and the node is an end. *)
Lemma placeOnFloor_accepts :
  let this := placeOnFloor (rayWorld (Some (floorHit 1))) in
  GoalPlaceBlock.getFaceAndRef this floorEye = Some (Candidate.result floorEntry)
  /\ GoalPlaceBlock.isEnd this (Node.mk 1 0 0) = true.
Proof.
  intros this.
  assert (T : GoalPlaceBlock.tryFace this floorEye floorEntry = Some (Candidate.result floorEntry)).
  { apply tryFace_LOS; [reflexivity|]. split; [reflexivity|].
    split; [apply placeOnFloor_inRange|]. split; [apply placeOnFloor_faced|].
    exists (floorHit 1). split; [reflexivity|]. split.
    - unfold floorHit. cbn [World.position]. f_equal; lra.
    - rewrite placeOnFloor_clicked_face. reflexivity. }
  assert (G : GoalPlaceBlock.getFaceAndRef this floorEye = Some (Candidate.result floorEntry)).
  { unfold GoalPlaceBlock.getFaceAndRef. unfold this at 2.
    rewrite placeOnFloor_facesPos. cbn [GoalPlaceBlock.getFaceAndRef_from].
    now rewrite T. }
  split; [exact G|].
  unfold GoalPlaceBlock.isEnd. fold floorEye. rewrite G.
  replace (GoalPlaceBlock.isStandingIn this (Node.mk 1 0 0)) with false; [reflexivity|].
  symmetry. unfold GoalPlaceBlock.isStandingIn. apply ltb_false.
  unfold this, placeOnFloor, GoalPlaceBlock.new, Vec3.floored.
  cbn [GoalPlaceBlock.pos Vec3.x Vec3.y Vec3.z Node.x Node.y Node.z].
  rewrite floor_IZR.
  replace (JS.ltb (0 - 0) 0) with false by (symmetry; apply ltb_false; lra).
  rewrite !Rminus_0_r, Rabs_R0, Rabs_R1. lra.
Qed.

(** The ray reports another face of the floor block, another block, or
    nothing: no entry is returned and the node is not an end. *)
Lemma placeOnFloor_rejects (hit : option World.RayHit) :
  hit = Some (floorHit 3)
  \/ hit = Some (World.mkHit (Vec3.mk 1 (-1) 0) (Some 1%Z))
  \/ hit = None ->
  let this := placeOnFloor (rayWorld hit) in
  GoalPlaceBlock.getFaceAndRef this floorEye = None
  /\ GoalPlaceBlock.isEnd this (Node.mk 1 0 0) = false.
Proof.
  intros H this.
  assert (T : GoalPlaceBlock.tryFace this floorEye floorEntry = None).
  { destruct (GoalPlaceBlock.tryFace this floorEye floorEntry) as [r|] eqn:E; [|reflexivity].
    apply tryFace_LOS in E; [|reflexivity].
    destruct E as (_ & _ & _ & b & Hb & Hp & Hf). exfalso.
    unfold this, placeOnFloor, GoalPlaceBlock.new, rayWorld in Hb.
    cbn [GoalPlaceBlock.world World.raycast] in Hb.
    rewrite placeOnFloor_clicked_face in Hf.
    destruct H as [ -> | [ -> | -> ] ]; try discriminate Hb; injection Hb as <-.
    - discriminate Hf.
    - cbn [World.position] in Hp. injection Hp as Hx _ _. lra. }
  assert (G : GoalPlaceBlock.getFaceAndRef this floorEye = None).
  { unfold GoalPlaceBlock.getFaceAndRef. unfold this at 2.
    rewrite placeOnFloor_facesPos. cbn [GoalPlaceBlock.getFaceAndRef_from].
    now rewrite T. }
  split; [exact G|].
  unfold GoalPlaceBlock.isEnd. fold floorEye. rewrite G.
  now destruct (GoalPlaceBlock.isStandingIn this (Node.mk 1 0 0)).
Qed.

(** ** [GoalPlaceBlock.checkFacing] *)

Lemma atan_lt_quarter (t : R) : t < 1 -> atan t < PI / 4.
Proof. intros H. rewrite <- atan_1. now apply atan_increasing. Qed.

Lemma atan_gt_quarter (t : R) : -1 < t -> - (PI / 4) < atan t.
Proof. intros H. rewrite <- atan_1, <- atan_opp. now apply atan_increasing. Qed.

Lemma ratio_bounds (x w : R) : 0 < w -> Rabs x < w -> -1 < x / w < 1.
Proof.
  intros Hw Hx. apply Rabs_def2 in Hx. destruct Hx as [Hlt Hgt].
  assert (Hi : 0 < / w) by now apply Rinv_0_lt_compat.
  assert (E : w * / w = 1) by (apply Rinv_r; lra).
  unfold Rdiv. split.
  - assert (H : (- w) * / w < x * / w) by (apply Rmult_lt_compat_r; lra). lra.
  - assert (H : x * / w < w * / w) by (apply Rmult_lt_compat_r; lra). lra.
Qed.

Lemma degrees_lt (a d : R) : a < d * PI / 180 -> a * 180 / PI < d.
Proof.
  intros H. pose proof PI_RGT_0 as P.
  assert (Hi : 0 < / PI) by now apply Rinv_0_lt_compat.
  assert (L : a * 180 < d * PI) by lra.
  apply (Rmult_lt_compat_r (/ PI)) in L; [|exact Hi].
  replace (d * PI * / PI) with d in L by (field; lra). exact L.
Qed.

Lemma degrees_gt (a d : R) : d * PI / 180 < a -> d < a * 180 / PI.
Proof.
  intros H. pose proof PI_RGT_0 as P.
  assert (Hi : 0 < / PI) by now apply Rinv_0_lt_compat.
  assert (L : d * PI < a * 180) by lra.
  apply (Rmult_lt_compat_r (/ PI)) in L; [|exact Hi].
  replace (d * PI * / PI) with d in L by (field; lra). exact L.
Qed.

Lemma degrees_eq (a d : R) : a = d * PI / 180 -> a * 180 / PI = d.
Proof. intros ->. pose proof PI_neq0. field. assumption. Qed.

(** Without [facing3D], and with a facing among the six names, the answer is
    the comparison of the facing with the quadrant of the shifted bearing,
    [floor (angle / 90 + 0.5)] modulo 4. *)
Lemma checkFacing_horizontal (this : GoalPlaceBlock.t) (dir : Vec3.t) :
  (0 <= GoalPlaceBlock.facing (GoalPlaceBlock.opts this))%Z ->
  GoalPlaceBlock.facing3D (GoalPlaceBlock.opts this) = false ->
  GoalPlaceBlock.checkFacing this dir
  = (GoalPlaceBlock.facing (GoalPlaceBlock.opts this)
     =? JS.floor ((JS.atan2_neg (Vec3.x dir) (Vec3.z dir) * 180 / PI + 180) / 90 + 0.5)
        mod 4)%Z.
Proof.
  intros Hf H3. unfold GoalPlaceBlock.checkFacing. rewrite H3.
  replace (GoalPlaceBlock.facing (GoalPlaceBlock.opts this) <? 0)%Z with false
    by (symmetry; apply Z.ltb_ge; exact Hf).
  change 3%Z with (Z.ones 2). rewrite Z.land_ones by lia.
  change (2 ^ 2)%Z with 4%Z.
  now destruct (_ =? _)%Z.
Qed.

(** Off the vertical axis the two zeros play no part. *)
Lemma atan2_neg_off_axis (y z : R) :
  y <> 0 \/ z <> 0 -> JS.atan2_neg y z = JS.atan2 y (- z).
Proof.
  intros H. unfold JS.atan2_neg.
  destruct (JS.eqb z 0) eqn:Ez; [|reflexivity].
  destruct (JS.eqb y 0) eqn:Ey; [|reflexivity].
  apply eqb_true in Ez, Ey. tauto.
Qed.

Lemma checkFacing_horizontal_part (this : GoalPlaceBlock.t) (dir : Vec3.t) :
  (0 <= GoalPlaceBlock.facing (GoalPlaceBlock.opts this))%Z ->
  GoalPlaceBlock.facing3D (GoalPlaceBlock.opts this) = false ->
  Vec3.x dir <> 0 \/ Vec3.z dir <> 0 ->
  GoalPlaceBlock.checkFacing this dir
  = (GoalPlaceBlock.facing (GoalPlaceBlock.opts this)
     =? JS.floor ((JS.atan2 (Vec3.x dir) (- Vec3.z dir) * 180 / PI + 180) / 90 + 0.5)
        mod 4)%Z.
Proof.
  intros Hf H3 Hh. rewrite checkFacing_horizontal by assumption.
  now rewrite atan2_neg_off_axis.
Qed.

(** A direction without horizontal part, straight up or straight down, has
    the shifted bearing 360 and the quadrant 0. *)
Lemma quadrant_of_vertical :
  (JS.floor ((JS.atan2_neg 0 0 * 180 / PI + 180) / 90 + 0.5) mod 4 = 0)%Z.
Proof.
  unfold JS.atan2_neg. rewrite eqb_refl. cbn [andb].
  rewrite (degrees_eq PI 180) by lra.
  rewrite (floor_between 4); [reflexivity | lra].
Qed.

(** The quadrant of a direction that bears within 45 degrees of north (the
    -z axis) is 2, the index of south. *)
Lemma quadrant_of_north (dir : Vec3.t) :
  Vec3.z dir < 0 -> Rabs (Vec3.x dir) < - Vec3.z dir ->
  JS.floor ((JS.atan2 (Vec3.x dir) (- Vec3.z dir) * 180 / PI + 180) / 90 + 0.5) = 2%Z.
Proof.
  intros Hz Hx. unfold JS.atan2.
  destruct (Rlt_dec 0 (- Vec3.z dir)) as [_|N]; [|lra].
  destruct (ratio_bounds (Vec3.x dir) (- Vec3.z dir)) as [Hlo Hhi]; [lra | exact Hx |].
  pose proof (atan_lt_quarter _ Hhi) as A1.
  pose proof (atan_gt_quarter _ Hlo) as A2.
  set (a := atan (Vec3.x dir / - Vec3.z dir)) in *.
  assert (D1 : a * 180 / PI < 45) by (apply degrees_lt; lra).
  assert (D2 : -45 < a * 180 / PI) by (apply degrees_gt; lra).
  apply floor_between. lra.
Qed.

(** The quadrant of a direction that bears within 45 degrees of south (the
    +z axis) is 0 modulo 4, the index of north. *)
Lemma quadrant_of_south (dir : Vec3.t) :
  0 < Vec3.z dir -> Rabs (Vec3.x dir) < Vec3.z dir ->
  (JS.floor ((JS.atan2 (Vec3.x dir) (- Vec3.z dir) * 180 / PI + 180) / 90 + 0.5)
   mod 4 = 0)%Z.
Proof.
  intros Hz Hx. unfold JS.atan2.
  destruct (Rlt_dec 0 (- Vec3.z dir)) as [N|_]; [lra|].
  destruct (Rlt_dec (- Vec3.z dir) 0) as [_|N]; [|lra].
  destruct (ratio_bounds (Vec3.x dir) (Vec3.z dir)) as [Hlo Hhi]; [lra | exact Hx |].
  assert (Er : Vec3.x dir / - Vec3.z dir = - (Vec3.x dir / Vec3.z dir))
    by (field; lra).
  rewrite Er, atan_opp.
  pose proof (atan_lt_quarter _ Hhi) as A1.
  pose proof (atan_gt_quarter _ Hlo) as A2.
  set (a := atan (Vec3.x dir / Vec3.z dir)) in *.
  pose proof PI_RGT_0 as P.
  destruct (Rle_dec 0 (Vec3.x dir)) as [Hp|Hn].
  - (* turning east of south: the angle is in (315, 360] *)
    assert (A3 : 0 <= a).
    { unfold a. rewrite <- atan_0.
      assert (0 <= Vec3.x dir / Vec3.z dir)
        by (apply Rmult_le_pos; [lra | left; now apply Rinv_0_lt_compat]).
      destruct H as [H| <-]; [left; now apply atan_increasing | right; reflexivity]. }
    assert (D1 : (- a + PI) * 180 / PI <= 180).
    { assert (D : (- a + PI) * 180 / PI = 180 - a * 180 / PI) by (field; lra).
      rewrite D. assert (0 <= a * 180 / PI).
      { unfold Rdiv. apply Rmult_le_pos; [lra | left; now apply Rinv_0_lt_compat]. }
      lra. }
    assert (D2 : 135 < (- a + PI) * 180 / PI) by (apply degrees_gt; lra).
    rewrite (floor_between 4); [reflexivity | lra].
  - (* turning west of south: the angle is in (0, 45) *)
    assert (A3 : a < 0).
    { unfold a. rewrite <- atan_0. apply atan_increasing.
      assert (0 < / Vec3.z dir) by now apply Rinv_0_lt_compat.
      unfold Rdiv. nra. }
    assert (D1 : (- a - PI) * 180 / PI < -135) by (apply degrees_lt; lra).
    assert (D2 : -180 < (- a - PI) * 180 / PI) by (apply degrees_gt; lra).
    rewrite (floor_between 0); [reflexivity | lra].
Qed.

Section FacingNorth.

Variable getShapeFaceCenters :
  list World.Shape -> Vec3.t -> option string -> list Vec3.t.
Variables (pos : Vec3.t) (world : World.t).
Variables (range : option R) (faces : option (list Vec3.t))
          (half : option string) (LOS : option bool).

(** The goal built with [facing: 'north'] and no [facing3D]. *)
Local Abbreviation north :=
  (GoalPlaceBlock.new getShapeFaceCenters pos world
     (GoalPlaceBlock.Options.mk range faces (Some "north"%string) false half LOS)).

(** Every direction that bears within 45 degrees of north is refused, and
    every direction that bears within 45 degrees of south is accepted. *)
Lemma checkFacing_north_sectors (dir : Vec3.t) :
  (Vec3.z dir < 0 -> Rabs (Vec3.x dir) < - Vec3.z dir ->
   GoalPlaceBlock.checkFacing north dir = false)
  /\ (0 < Vec3.z dir -> Rabs (Vec3.x dir) < Vec3.z dir ->
      GoalPlaceBlock.checkFacing north dir = true).
Proof.
  split; intros Hz Hx.
  - rewrite checkFacing_horizontal_part; [| cbn; lia | reflexivity | right; lra].
    rewrite quadrant_of_north by assumption. reflexivity.
  - rewrite checkFacing_horizontal_part; [| cbn; lia | reflexivity | right; lra].
    rewrite quadrant_of_south by assumption. reflexivity.
Qed.

(** C2 (the code at the failing input).  With [facing: 'north'] and no
    [facing3D], [checkFacing] refuses the direction that points due north,
    (0,0,-1): its shifted bearing is 180 degrees, whose quadrant is 2, the
    index of south.  The direction that points due south, (0,0,1), is the
    one it accepts. *)
Theorem checkFacing_north_due_north :
  GoalPlaceBlock.facing (GoalPlaceBlock.opts north) = 0%Z
  /\ GoalPlaceBlock.checkFacing north (Vec3.mk 0 0 (-1)) = false
  /\ GoalPlaceBlock.checkFacing north (Vec3.mk 0 0 1) = true.
Proof.
  split; [reflexivity|]. split.
  - apply checkFacing_north_sectors; cbn [Vec3.x Vec3.z]; [lra|].
    rewrite Rabs_R0. lra.
  - apply checkFacing_north_sectors; cbn [Vec3.x Vec3.z]; [lra|].
    rewrite Rabs_R0. lra.
Qed.

(** At the 45-degree boundaries of the north sector the quadrant is the
    rounded one: north-east, (1,0,-1), has the shifted bearing 225 and the
    quadrant 3; north-west, (-1,0,-1), has 135 and the quadrant 2. *)
Lemma checkFacing_north_boundaries :
  JS.floor ((JS.atan2 1 (- -1) * 180 / PI + 180) / 90 + 0.5) = 3%Z
  /\ JS.floor ((JS.atan2 (-1) (- -1) * 180 / PI + 180) / 90 + 0.5) = 2%Z
  /\ GoalPlaceBlock.checkFacing north (Vec3.mk 1 0 (-1)) = false
  /\ GoalPlaceBlock.checkFacing north (Vec3.mk (-1) 0 (-1)) = false.
Proof.
  assert (Q1 : JS.floor ((JS.atan2 1 (- -1) * 180 / PI + 180) / 90 + 0.5) = 3%Z).
  { unfold JS.atan2. destruct (Rlt_dec 0 (- -1)) as [_|N]; [|lra].
    replace (1 / - -1) with 1 by field.
    rewrite atan_1, (degrees_eq (PI / 4) 45) by lra.
    apply floor_between. lra. }
  assert (Q2 : JS.floor ((JS.atan2 (-1) (- -1) * 180 / PI + 180) / 90 + 0.5) = 2%Z).
  { unfold JS.atan2. destruct (Rlt_dec 0 (- -1)) as [_|N]; [|lra].
    replace (-1 / - -1) with (Ropp 1) by field.
    rewrite atan_opp, atan_1, (degrees_eq (- (PI / 4)) (-45)) by lra.
    apply floor_between. lra. }
  repeat split; trivial.
  - rewrite checkFacing_horizontal_part;
      [| cbn; lia | reflexivity | right; cbn [Vec3.z]; lra].
    cbn [Vec3.x Vec3.z]. rewrite Q1. reflexivity.
  - rewrite checkFacing_horizontal_part;
      [| cbn; lia | reflexivity | right; cbn [Vec3.z]; lra].
    cbn [Vec3.x Vec3.z]. rewrite Q2. reflexivity.
Qed.

End FacingNorth.

(** With [facing3D], the vertical test follows the direction itself: a
    direction that points straight up is accepted for [facing: 'up'] and
    refused for [facing: 'down']. *)
Lemma checkFacing_up_looking_up
      (getShapeFaceCenters : list World.Shape -> Vec3.t -> option string -> list Vec3.t)
      (pos : Vec3.t) (world : World.t)
      (range : option R) (faces : option (list Vec3.t))
      (half : option string) (LOS : option bool) :
  GoalPlaceBlock.checkFacing
    (GoalPlaceBlock.new getShapeFaceCenters pos world
       (GoalPlaceBlock.Options.mk range faces (Some "up"%string) true half LOS))
    (Vec3.mk 0 1 0) = true
  /\ GoalPlaceBlock.checkFacing
       (GoalPlaceBlock.new getShapeFaceCenters pos world
          (GoalPlaceBlock.Options.mk range faces (Some "down"%string) true half LOS))
       (Vec3.mk 0 1 0) = false.
Proof.
  assert (V : JS.gtb (JS.atan2 1 (sqrt (0 * 0 + 0 * 0)) * 180 / PI) 45 = true).
  { replace (0 * 0 + 0 * 0) with 0 by lra. rewrite sqrt_0.
    unfold JS.atan2.
    destruct (Rlt_dec 0 0) as [N|_]; [lra|].
    destruct (Rlt_dec 0 1) as [_|N]; [|lra].
    rewrite (degrees_eq (PI / 2) 90) by lra. apply gtb_true. lra. }
  split; unfold GoalPlaceBlock.checkFacing, GoalPlaceBlock.new, GoalPlaceBlock.fillOptions;
    cbn [GoalPlaceBlock.opts GoalPlaceBlock.facing GoalPlaceBlock.facing3D
         GoalPlaceBlock.Options.facing GoalPlaceBlock.Options.facing3D
         Vec3.x Vec3.y Vec3.z];
    rewrite V; reflexivity.
Qed.

(** * Further properties of the goals *)

(** ** Induction over the tree of a goal *)

Lemma goal_tree_ind (P : goal -> Prop) :
  (forall g, P (Block g)) -> (forall g, P (Near g)) -> (forall g, P (XZ g)) ->
  (forall g, P (Y g)) -> (forall g, P (GetToBlock g)) ->
  (forall goals, Forall P goals -> P (CompositeAny goals)) ->
  (forall goals, Forall P goals -> P (CompositeAll goals)) ->
  (forall g, P g -> P (Invert g)) ->
  (forall g, P (Follow g)) -> (forall g, P (PlaceBlock g)) ->
  forall g, P g.
Proof.
  intros HB HN HX HY HG HAny HAll HI HF HP.
  fix IH 1. intros g. destruct g as [b|n|x|y|t|goals|goals|g|f|p].
  - apply HB.
  - apply HN.
  - apply HX.
  - apply HY.
  - apply HG.
  - apply HAny. induction goals as [|g rest IHl]; constructor; [apply IH | exact IHl].
  - apply HAll. induction goals as [|g rest IHl]; constructor; [apply IH | exact IHl].
  - apply HI, IH.
  - apply HF.
  - apply HP.
Qed.

(** ** [hasChanged] through the composites *)

Section ChangeLoop.

Variable G : Type.
Variable child_hasChanged : G -> bool * G.

Lemma CompositeAll_hasChanged_same (goals : list G) :
  GoalCompositeAll.hasChanged G child_hasChanged goals
  = GoalCompositeAny.hasChanged G child_hasChanged goals.
Proof. reflexivity. Qed.

Lemma hasChanged_loop_existsb (goals : list G) :
  fst (GoalCompositeAny.hasChanged G child_hasChanged goals)
  = existsb (fun g => fst (child_hasChanged g)) goals.
Proof.
  induction goals as [|g rest IH]; simpl; [reflexivity|].
  destruct (child_hasChanged g) as [c g']. simpl.
  destruct c; [reflexivity|].
  destruct (GoalCompositeAny.hasChanged G child_hasChanged rest). exact IH.
Qed.

Lemma hasChanged_loop_stops (before : list G) (g : G) (after : list G) :
  Forall (fun b => fst (child_hasChanged b) = false) before ->
  fst (child_hasChanged g) = true ->
  GoalCompositeAny.hasChanged G child_hasChanged (before ++ g :: after)
  = (true, map (fun b => snd (child_hasChanged b)) before
             ++ snd (child_hasChanged g) :: after).
Proof.
  intros Hb Hg. induction Hb as [|b before Hc _ IH]; simpl.
  - destruct (child_hasChanged g) as [c g']. simpl in *. now subst c.
  - destruct (child_hasChanged b) as [c b']. simpl in *. subst c.
    now rewrite IH.
Qed.

Lemma hasChanged_loop_quiet (goals : list G) :
  Forall (fun b => child_hasChanged b = (false, b)) goals ->
  GoalCompositeAny.hasChanged G child_hasChanged goals = (false, goals).
Proof.
  intros H. induction H as [|b rest Hb _ IH]; simpl; [reflexivity|].
  now rewrite Hb, IH.
Qed.

End ChangeLoop.

Lemma hasChanged_quiet (h : Entity.heap) (g : goal) :
  fst (hasChanged h g) = false -> hasChanged h g = (false, g).
Proof.
  induction g as [b|n|x|y|t|goals IH|goals IH|g IH|f|p] using goal_tree_ind;
    try reflexivity.
  - cbn [hasChanged]. unfold lift. cbn [fst snd]. intros H.
    rewrite hasChanged_loop_existsb in H.
    rewrite hasChanged_loop_quiet; [reflexivity|].
    rewrite Forall_forall in *. intros b Hin. apply IH; [exact Hin|].
    destruct (fst (hasChanged h b)) eqn:E; [|reflexivity].
    rewrite <- H. symmetry. apply existsb_exists. now exists b.
  - cbn [hasChanged]. unfold lift. cbn [fst snd]. intros H.
    rewrite CompositeAll_hasChanged_same in *.
    rewrite hasChanged_loop_existsb in H.
    rewrite hasChanged_loop_quiet; [reflexivity|].
    rewrite Forall_forall in *. intros b Hin. apply IH; [exact Hin|].
    destruct (fst (hasChanged h b)) eqn:E; [|reflexivity].
    rewrite <- H. symmetry. apply existsb_exists. now exists b.
  - cbn [hasChanged]. unfold lift, GoalInvert.hasChanged. cbn [fst snd].
    intros H. now rewrite (IH H).
  - cbn [hasChanged]. unfold lift, GoalFollow.hasChanged. cbn [fst snd].
    destruct (JS.gtb _ _); [discriminate | reflexivity].
Qed.

(** X1.  Whatever the tree of a goal, a [hasChanged] that returns false has
    left the goal exactly as it was: a target is only ever moved by a call
    that reports it. *)
Theorem hasChanged_false_keeps_goal (h : Entity.heap) (g : goal) :
  hasChanged h g = (false, g) \/ fst (hasChanged h g) = true.
Proof.
  destruct (fst (hasChanged h g)) eqn:E; [now right | left].
  now apply hasChanged_quiet.
Qed.

Lemma hasChanged_static (h : Entity.heap) (g : goal) :
  hasFollow g = false -> hasChanged h g = (false, g).
Proof.
  induction g as [b|n|x|y|t|goals IH|goals IH|g IH|f|p] using goal_tree_ind;
    try reflexivity; cbn [hasFollow]; intros H.
  - cbn [hasChanged]. rewrite hasChanged_loop_quiet; [reflexivity|].
    rewrite Forall_forall in *. intros b Hin. apply IH; [exact Hin|].
    destruct (hasFollow b) eqn:E; [|reflexivity].
    rewrite <- H. symmetry. apply existsb_exists. now exists b.
  - cbn [hasChanged]. rewrite CompositeAll_hasChanged_same.
    rewrite hasChanged_loop_quiet; [reflexivity|].
    rewrite Forall_forall in *. intros b Hin. apply IH; [exact Hin|].
    destruct (hasFollow b) eqn:E; [|reflexivity].
    rewrite <- H. symmetry. apply existsb_exists. now exists b.
  - cbn [hasChanged]. unfold GoalInvert.hasChanged. now rewrite (IH H).
  - discriminate H.
Qed.

(** X2.  A goal whose tree holds no [GoalFollow], however deeply the
    composites and inversions are nested, never reports a change and is
    never modified by [hasChanged], for any state of the entities. *)
Theorem hasChanged_without_follow (h : Entity.heap) (g : goal) :
  hasFollow g = false -> hasChanged h g = (false, g).
Proof. apply hasChanged_static. Qed.

(** The statement above on an inverted disjunction inside a conjunction. *)
Lemma hasChanged_without_follow_witness :
  let g := CompositeAll [Invert (CompositeAny [Block (GoalBlock.new 0 0 0);
                                              XZ (GoalXZ.new 4 4)]);
                         Y (GoalY.new 64)] in
  hasChanged walkedEast g = (false, g).
Proof.
  intros g. apply (hasChanged_without_follow walkedEast g). reflexivity.
Defined.

Lemma follower_walked (e : Entity.ref) :
  hasChanged walkedEast (follower e) = (true, Follow (GoalFollow.mk e 10 0 0 (3 * 3))).
Proof.
  unfold follower, walkedEast, atOrigin. cbn [hasChanged]. unfold lift.
  unfold GoalFollow.hasChanged, GoalFollow.new, Entity.floored.
  cbn [Entity.position Vec3.x Vec3.y Vec3.z GoalFollow.x GoalFollow.y GoalFollow.z
       GoalFollow.entity GoalFollow.rangeSq Node.x Node.y Node.z].
  rewrite !floor_IZR.
  replace (JS.gtb _ _) with true; [reflexivity|].
  symmetry. apply gtb_true.
  change ((0 - 10) * (0 - 10) + (0 - 0) * (0 - 0) + (0 - 0) * (0 - 0))%Z with 100%Z.
  lra.
Qed.

(** X3.  The loop of a composite's [hasChanged] stops at the first child
    that reports a change: the composite returns true, that child is as its
    call left it, the children before it are untouched, and the children
    after it are not asked, so a follower among them keeps its stale
    target. *)
Theorem hasChanged_stops_at_first (h : Entity.heap) (before : list goal)
        (g : goal) (after : list goal) :
  Forall (fun b => fst (hasChanged h b) = false) before ->
  fst (hasChanged h g) = true ->
  hasChanged h (CompositeAny (before ++ g :: after))
  = (true, CompositeAny (before ++ snd (hasChanged h g) :: after))
  /\ hasChanged h (CompositeAll (before ++ g :: after))
     = (true, CompositeAll (before ++ snd (hasChanged h g) :: after)).
Proof.
  intros Hb Hg.
  assert (E : map (fun b => snd (hasChanged h b)) before = before).
  { induction Hb as [|b before Hc _ IH]; simpl; [reflexivity|].
    rewrite IH. now rewrite (hasChanged_quiet h b Hc). }
  split; cbn [hasChanged]; [|rewrite CompositeAll_hasChanged_same];
    rewrite (hasChanged_loop_stops goal (hasChanged h) before g after Hb Hg), E;
    reflexivity.
Qed.

(** The statement above with a block goal first and two followers whose
    entities have both moved: the second follower is not retargeted. *)
Lemma hasChanged_stops_at_first_witness :
  let before := [Block (GoalBlock.new 0 0 0)] in
  hasChanged walkedEast (CompositeAny (before ++ follower 1%nat :: [follower 2%nat]))
  = (true, CompositeAny (before ++ snd (hasChanged walkedEast (follower 1%nat))
                                :: [follower 2%nat]))
  /\ hasChanged walkedEast (CompositeAll (before ++ follower 1%nat :: [follower 2%nat]))
     = (true, CompositeAll (before ++ snd (hasChanged walkedEast (follower 1%nat))
                                   :: [follower 2%nat])).
Proof.
  intros before.
  apply (hasChanged_stops_at_first walkedEast before (follower 1%nat) [follower 2%nat]).
  - repeat constructor.
  - now rewrite follower_walked.
Defined.

(** X4.  A composite reports a change exactly when one of its children
    does, whichever of the two composites it is. *)
Theorem hasChanged_composite_iff (h : Entity.heap) (goals : list goal) :
  (fst (hasChanged h (CompositeAny goals)) = true
   <-> exists g, In g goals /\ fst (hasChanged h g) = true)
  /\ (fst (hasChanged h (CompositeAll goals)) = true
      <-> exists g, In g goals /\ fst (hasChanged h g) = true).
Proof.
  split; cbn [hasChanged]; unfold lift; cbn [fst];
    [|rewrite CompositeAll_hasChanged_same];
    rewrite hasChanged_loop_existsb; apply existsb_exists.
Qed.

(** ** [isEnd] and [heuristic] through the composites *)

(** X5.  [GoalCompositeAny.isEnd] is true exactly when some child's is, and
    [GoalCompositeAll.isEnd] exactly when every child's is. *)
Theorem Composite_isEnd_iff (goals : list goal) (node : Node.t) :
  (isEnd (CompositeAny goals) node = true
   <-> exists g, In g goals /\ isEnd g node = true)
  /\ (isEnd (CompositeAll goals) node = true
      <-> forall g, In g goals -> isEnd g node = true).
Proof.
  split.
  - rewrite CompositeAny_isEnd_existsb. apply existsb_exists.
  - rewrite CompositeAll_isEnd_forallb. apply forallb_forall.
Qed.

(** X6.  Inversion exchanges the two composites on [isEnd] (De Morgan), and
    a double inversion gives back the goal's own [isEnd] and [heuristic]. *)
Theorem Invert_de_morgan (goals : list goal) (g : goal) (node : Node.t) :
  isEnd (Invert (CompositeAny goals)) node = isEnd (CompositeAll (map Invert goals)) node
  /\ isEnd (Invert (CompositeAll goals)) node = isEnd (CompositeAny (map Invert goals)) node
  /\ isEnd (Invert (Invert g)) node = isEnd g node
  /\ heuristic (Invert (Invert g)) node = heuristic g node.
Proof.
  repeat split.
  - change (isEnd (Invert (CompositeAny goals)) node)
      with (negb (isEnd (CompositeAny goals) node)).
    rewrite CompositeAny_isEnd_existsb, CompositeAll_isEnd_forallb.
    induction goals as [|k rest IH]; simpl; [reflexivity|].
    rewrite negb_orb, IH. reflexivity.
  - change (isEnd (Invert (CompositeAll goals)) node)
      with (negb (isEnd (CompositeAll goals) node)).
    rewrite CompositeAny_isEnd_existsb, CompositeAll_isEnd_forallb.
    induction goals as [|k rest IH]; simpl; [reflexivity|].
    rewrite negb_andb, IH. reflexivity.
  - change (isEnd (Invert (Invert g)) node) with (negb (negb (isEnd g node))).
    apply negb_involutive.
  - change (heuristic (Invert (Invert g)) node) with (- - heuristic g node).
    apply Ropp_involutive.
Qed.

(** X7.  [push] appends: after it, [isEnd] of the conjunction is the old
    one and the new child's, [isEnd] of the disjunction the old one or the
    new child's, and the two heuristics are the old value combined with the
    new child's by [Math.max] and [Math.min]. *)
Theorem Composite_push (goals : list goal) (g : goal) (node : Node.t) :
  isEnd (CompositeAll (GoalCompositeAll.push goal goals g)) node
  = isEnd (CompositeAll goals) node && isEnd g node
  /\ isEnd (CompositeAny (GoalCompositeAny.push goal goals g)) node
     = isEnd (CompositeAny goals) node || isEnd g node
  /\ heuristic (CompositeAll (GoalCompositeAll.push goal goals g)) node
     = Rmax (heuristic (CompositeAll goals) node) (heuristic g node)
  /\ heuristic (CompositeAny (GoalCompositeAny.push goal goals g)) node
     = Rmin (heuristic (CompositeAny goals) node) (heuristic g node).
Proof.
  unfold GoalCompositeAll.push, GoalCompositeAny.push. repeat split.
  - rewrite !CompositeAll_isEnd_forallb, forallb_app. simpl.
    now rewrite andb_true_r.
  - rewrite !CompositeAny_isEnd_existsb, existsb_app. simpl.
    now rewrite orb_false_r.
  - cbn [heuristic]. unfold GoalCompositeAll.heuristic.
    rewrite fold_left_app. reflexivity.
  - cbn [heuristic]. unfold GoalCompositeAny.heuristic.
    rewrite fold_left_app. reflexivity.
Qed.

Lemma Rmin_swap (a b c : R) : Rmin a (Rmin b c) = Rmin b (Rmin a c).
Proof. rewrite !Rmin_assoc, (Rmin_comm a b). reflexivity. Qed.

Lemma fold_right_Rmin_init (a b : R) (l : list R) :
  fold_right Rmin (Rmin a b) l = Rmin b (fold_right Rmin a l).
Proof.
  induction l as [|k l IH]; simpl.
  - apply Rmin_comm.
  - rewrite IH. apply Rmin_swap.
Qed.

Lemma CompositeAny_heuristic_fold (G : Type) (f : G -> Node.t -> R)
      (goals : list G) (node : Node.t) (init : R) :
  fold_left (fun min g => Rmin min (f g node)) goals init
  = fold_right Rmin init (map (fun g => f g node) goals).
Proof.
  revert init. induction goals as [|g rest IH]; intros init; simpl.
  - reflexivity.
  - rewrite IH. apply fold_right_Rmin_init.
Qed.

Lemma minimum_ceiling (a h : R) (t : list R) :
  fold_right Rmin a (h :: t) = Rmin a (minimum h t).
Proof.
  unfold minimum. simpl. induction t as [|k t IH]; simpl.
  - apply Rmin_comm.
  - rewrite Rmin_swap, IH. apply Rmin_swap.
Qed.

Lemma MAX_VALUE_ge_1 : 1 <= JS.MAX_VALUE.
Proof.
  unfold JS.MAX_VALUE.
  assert (A : 1 <= 2 ^ 971) by (apply pow_R1_Rle; lra).
  assert (B : 1 <= 2 ^ 52) by (apply pow_R1_Rle; lra).
  change (2 ^ 53) with (2 * 2 ^ 52). nra.
Qed.

(** X8.  [GoalCompositeAny.heuristic] of no child is [Number.MAX_VALUE], the
    value its loop starts from; with children it is the minimum of their
    values as soon as that minimum does not exceed [Number.MAX_VALUE]. *)
Theorem CompositeAny_heuristic_min (g : goal) (goals : list goal) (node : Node.t) :
  minimum (heuristic g node) (map (fun g' => heuristic g' node) goals) <= JS.MAX_VALUE ->
  heuristic (CompositeAny (g :: goals)) node
  = minimum (heuristic g node) (map (fun g' => heuristic g' node) goals)
  /\ heuristic (CompositeAny []) node = JS.MAX_VALUE.
Proof.
  intros H. split; [|reflexivity].
  cbn [heuristic]. unfold GoalCompositeAny.heuristic.
  rewrite CompositeAny_heuristic_fold. cbn [map].
  rewrite minimum_ceiling. now apply Rmin_right.
Qed.

(** The statement above on the disjunction of one block goal, one step
    away from its target. *)
Lemma CompositeAny_heuristic_min_witness :
  let g := Block (GoalBlock.new 0 0 0) in
  let node := Node.mk 1 0 0 in
  heuristic (CompositeAny [g]) node = minimum (heuristic g node) []
  /\ heuristic (CompositeAny []) node = JS.MAX_VALUE.
Proof.
  intros g node. apply (CompositeAny_heuristic_min g [] node).
  unfold minimum. cbn [map fold_right]. unfold g, node.
  rewrite GoalBlock_heuristic_step. apply MAX_VALUE_ge_1.
Defined.

(** ** [distanceXZ] and the positional goals *)

Lemma sqrt2_bounds : 1 < JS.SQRT2 /\ JS.SQRT2 * JS.SQRT2 = 2.
Proof.
  unfold JS.SQRT2. split.
  - rewrite <- sqrt_1 at 1. apply sqrt_lt_1; lra.
  - apply sqrt_sqrt. lra.
Qed.

Lemma Rabs_square (a : R) : Rabs a * Rabs a = a * a.
Proof. unfold Rabs. destruct (Rcase_abs a); ring. Qed.

Lemma distanceXZ_cases (dx dz : R) :
  (Rabs dx <= Rabs dz /\
   distanceXZ dx dz = Rabs dz + (JS.SQRT2 - 1) * Rabs dx)
  \/ (Rabs dz <= Rabs dx /\
      distanceXZ dx dz = Rabs dx + (JS.SQRT2 - 1) * Rabs dz).
Proof.
  unfold distanceXZ. destruct (Rle_dec (Rabs dx) (Rabs dz)) as [H|H].
  - left. split; [exact H|].
    rewrite Rmin_left by exact H. rewrite Rabs_left1 by lra. ring.
  - right. assert (H' : Rabs dz <= Rabs dx) by lra. split; [exact H'|].
    rewrite Rmin_right by exact H'. rewrite Rabs_right by lra. ring.
Qed.

(** X9.  [distanceXZ] is the octile distance: the larger of the two
    absolute offsets plus (sqrt 2 - 1) times the smaller.  It is symmetric,
    lies between the Euclidean and the Manhattan distance, and is |d| sqrt 2
    on a diagonal. *)
Theorem distanceXZ_octile (dx dz : R) :
  distanceXZ dx dz
  = Rmax (Rabs dx) (Rabs dz) + (JS.SQRT2 - 1) * Rmin (Rabs dx) (Rabs dz)
  /\ distanceXZ dx dz = distanceXZ dz dx
  /\ sqrt (dx * dx + dz * dz) <= distanceXZ dx dz <= Rabs dx + Rabs dz
  /\ distanceXZ dx dx = Rabs dx * JS.SQRT2.
Proof.
  destruct sqrt2_bounds as [S1 S2].
  pose proof (Rabs_pos dx) as Px. pose proof (Rabs_pos dz) as Pz.
  assert (S3 : JS.SQRT2 < 2) by nra.
  split; [|split; [|split]].
  - destruct (distanceXZ_cases dx dz) as [[H E]|[H E]]; rewrite E.
    + rewrite Rmax_right, Rmin_left by exact H. reflexivity.
    + rewrite Rmax_left, Rmin_right by exact H. reflexivity.
  - apply distanceXZ_sym.
  - rewrite <- (Rabs_square dx), <- (Rabs_square dz).
    set (a := Rabs dx) in *. set (b := Rabs dz) in *.
    assert (Q : forall m M, 0 <= m -> m <= M ->
                sqrt (m * m + M * M) <= M + (JS.SQRT2 - 1) * m <= m + M).
    { intros m M Hm HM. split; [|nra].
      rewrite <- (sqrt_square (M + (JS.SQRT2 - 1) * m)) by nra.
      apply sqrt_le_1_alt.
      assert (K : 0 <= (JS.SQRT2 - 1) * (m * (M - m)))
        by (apply Rmult_le_pos; [lra | apply Rmult_le_pos; lra]).
      replace ((M + (JS.SQRT2 - 1) * m) * (M + (JS.SQRT2 - 1) * m))
        with (m * m + M * M + 2 * ((JS.SQRT2 - 1) * (m * (M - m)))
              + (JS.SQRT2 * JS.SQRT2 - 2) * (m * m)) by ring.
      rewrite S2. lra. }
    destruct (distanceXZ_cases dx dz) as [[H E]|[H E]]; rewrite E; fold a b.
    + apply (Q a b); assumption.
    + rewrite (Rplus_comm (a * a)), (Rplus_comm a b). apply (Q b a); assumption.
  - unfold distanceXZ. rewrite Rminus_diag, Rabs_R0, Rmin_left by lra. ring.
Qed.

Lemma distanceXZ_zero (dx dz : Z) :
  0 <= distanceXZ (IZR dx) (IZR dz)
  /\ (distanceXZ (IZR dx) (IZR dz) = 0 <-> dx = 0%Z /\ dz = 0%Z).
Proof.
  destruct sqrt2_bounds as [S1 _].
  pose proof (Rabs_pos (IZR dx)) as Px. pose proof (Rabs_pos (IZR dz)) as Pz.
  assert (Z0 : forall k, Rabs (IZR k) = 0 -> k = 0%Z).
  { intros k Hk. apply eq_IZR_R0.
    destruct (Req_dec_T (IZR k) 0) as [E|E]; [exact E|].
    apply Rabs_no_R0 in E. contradiction. }
  split.
  - destruct (distanceXZ_cases (IZR dx) (IZR dz)) as [[H E]|[H E]]; rewrite E; nra.
  - split.
    + intros H0.
      destruct (distanceXZ_cases (IZR dx) (IZR dz)) as [[H E]|[H E]];
        rewrite E in H0; split; apply Z0; nra.
    + intros [-> ->]. rewrite distanceXZ_0_r. apply Rabs_R0.
Qed.

(** X10.  The heuristics of [GoalBlock], [GoalXZ] and [GoalY] are never
    negative, and each is 0 exactly on the nodes where the goal's [isEnd]
    is true. *)
Theorem exact_goals_zero_iff_end (b : GoalBlock.t) (c : GoalXZ.t) (a : GoalY.t)
        (node : Node.t) :
  (0 <= heuristic (Block b) node
   /\ (heuristic (Block b) node = 0 <-> isEnd (Block b) node = true))
  /\ (0 <= heuristic (XZ c) node
      /\ (heuristic (XZ c) node = 0 <-> isEnd (XZ c) node = true))
  /\ (0 <= heuristic (Y a) node
      /\ (heuristic (Y a) node = 0 <-> isEnd (Y a) node = true)).
Proof.
  cbn [heuristic isEnd].
  unfold GoalBlock.heuristic, GoalBlock.isEnd, GoalXZ.heuristic, GoalXZ.isEnd,
    GoalY.heuristic, GoalY.isEnd.
  destruct b as [bx by' bz], c as [cx cz], a as [ay], node as [nx ny nz].
  cbn [GoalBlock.x GoalBlock.y GoalBlock.z GoalXZ.x GoalXZ.z GoalY.y
       Node.x Node.y Node.z].
  pose proof (distanceXZ_zero (bx - nx) (bz - nz)) as [B0 B1].
  pose proof (distanceXZ_zero (cx - nx) (cz - nz)) as [C0 C1].
  assert (A0 : forall k, 0 <= IZR (Z.abs k)) by (intros k; apply IZR_le, Z.abs_nonneg).
  assert (A1 : forall k, IZR (Z.abs k) = 0 <-> k = 0%Z).
  { intros k. split; [intros H; apply eq_IZR_R0 in H; lia | intros ->; reflexivity]. }
  repeat split; try (pose proof (A0 (by' - ny)%Z); lra); try apply A0.
  - intros H. pose proof (A0 (by' - ny)%Z) as A.
    assert (H1 : distanceXZ (IZR (bx - nx)) (IZR (bz - nz)) = 0) by lra.
    assert (H2 : IZR (Z.abs (by' - ny)) = 0) by lra.
    apply B1 in H1. apply A1 in H2.
    rewrite !andb_true_iff, !Z.eqb_eq. lia.
  - rewrite !andb_true_iff, !Z.eqb_eq. intros [[Hx Hy] Hz].
    assert (H1 : distanceXZ (IZR (bx - nx)) (IZR (bz - nz)) = 0) by (apply B1; lia).
    assert (H2 : IZR (Z.abs (by' - ny)) = 0) by (apply A1; lia).
    lra.
  - intros H. apply C1 in H. rewrite andb_true_iff, !Z.eqb_eq. lia.
  - rewrite andb_true_iff, !Z.eqb_eq. intros [Hx Hz]. apply C1. lia.
  - intros H. apply A1 in H. apply Z.eqb_eq. lia.
  - intros H. apply Z.eqb_eq in H. apply A1. lia.
Qed.

(** X11.  A block goal is the conjunction of the column goal and the
    altitude goal built from the same coordinates: [isEnd] agrees with the
    [GoalCompositeAll] of the two at every node, and the heuristic is the
    sum of theirs. *)
Theorem Block_is_XZ_and_Y (x y z : R) (node : Node.t) :
  isEnd (Block (GoalBlock.new x y z)) node
  = isEnd (CompositeAll [XZ (GoalXZ.new x z); Y (GoalY.new y)]) node
  /\ heuristic (Block (GoalBlock.new x y z)) node
     = heuristic (XZ (GoalXZ.new x z)) node + heuristic (Y (GoalY.new y)) node.
Proof.
  split.
  - rewrite CompositeAll_isEnd_forallb. cbn [forallb isEnd].
    unfold GoalBlock.isEnd, GoalXZ.isEnd, GoalY.isEnd, GoalBlock.new, GoalXZ.new, GoalY.new.
    cbn [GoalBlock.x GoalBlock.y GoalBlock.z GoalXZ.x GoalXZ.z GoalY.y].
    destruct (Node.x node =? JS.floor x)%Z, (Node.y node =? JS.floor y)%Z,
      (Node.z node =? JS.floor z)%Z; reflexivity.
  - reflexivity.
Qed.

(** ** [GoalNear] *)

Lemma distanceSq_zero (x y z : Z) (node : Node.t) :
  (distanceSq x y z node <= 0)%Z
  <-> Node.x node = x /\ Node.y node = y /\ Node.z node = z.
Proof.
  unfold distanceSq. split.
  - intros H.
    pose proof (Z.square_nonneg (x - Node.x node)).
    pose proof (Z.square_nonneg (y - Node.y node)).
    pose proof (Z.square_nonneg (z - Node.z node)).
    assert (A : ((x - Node.x node) * (x - Node.x node) = 0)%Z) by lia.
    assert (B : ((y - Node.y node) * (y - Node.y node) = 0)%Z) by lia.
    assert (C : ((z - Node.z node) * (z - Node.z node) = 0)%Z) by lia.
    apply Z.mul_eq_0 in A, B, C. lia.
  - intros (-> & -> & ->). rewrite !Z.sub_diag. simpl. lia.
Qed.

Lemma GoalNear_isEnd_distanceSq (x y z range : R) (node : Node.t) :
  isEnd (Near (GoalNear.new x y z range)) node = true
  <-> IZR (distanceSq (JS.floor x) (JS.floor y) (JS.floor z) node) <= range * range.
Proof. cbn [isEnd]. apply leb_true. Qed.

(** X12.  For [GoalNear]: the floored center is an end whatever the range
    is; a range of 0 makes the goal the block goal of its center; the sign
    of the range does not matter; and a node that is an end for one range is
    an end for every range of larger absolute value. *)
Theorem GoalNear_ranges (x y z r r' : R) (node : Node.t) :
  isEnd (Near (GoalNear.new x y z r))
        (Node.mk (JS.floor x) (JS.floor y) (JS.floor z)) = true
  /\ isEnd (Near (GoalNear.new x y z 0)) node = isEnd (Block (GoalBlock.new x y z)) node
  /\ isEnd (Near (GoalNear.new x y z (- r))) node = isEnd (Near (GoalNear.new x y z r)) node
  /\ (Rabs r <= Rabs r' ->
      isEnd (Near (GoalNear.new x y z r)) node = true ->
      isEnd (Near (GoalNear.new x y z r')) node = true).
Proof.
  split; [|split; [|split]].
  - apply GoalNear_isEnd_distanceSq. unfold distanceSq. cbn [Node.x Node.y Node.z].
    rewrite !Z.sub_diag. cbn [Z.mul Z.add]. nra.
  - destruct (isEnd (Block (GoalBlock.new x y z)) node) eqn:E.
    + apply GoalNear_isEnd_distanceSq.
      cbn [isEnd] in E. unfold GoalBlock.isEnd, GoalBlock.new in E.
      cbn [GoalBlock.x GoalBlock.y GoalBlock.z] in E.
      rewrite !andb_true_iff, !Z.eqb_eq in E.
      assert (D : (distanceSq (JS.floor x) (JS.floor y) (JS.floor z) node <= 0)%Z)
        by (apply distanceSq_zero; tauto).
      apply IZR_le in D. lra.
    + destruct (isEnd (Near (GoalNear.new x y z 0)) node) eqn:N; [|reflexivity].
      apply GoalNear_isEnd_distanceSq in N. rewrite Rmult_0_l in N.
      apply le_IZR in N. apply distanceSq_zero in N.
      cbn [isEnd] in E. unfold GoalBlock.isEnd, GoalBlock.new in E.
      cbn [GoalBlock.x GoalBlock.y GoalBlock.z] in E.
      destruct N as (Nx & Ny & Nz). rewrite Nx, Ny, Nz, !Z.eqb_refl in E.
      discriminate E.
  - cbn [isEnd]. unfold GoalNear.isEnd, GoalNear.new. cbn [GoalNear.rangeSq].
    now replace (- r * - r) with (r * r) by ring.
  - intros Hr. rewrite !GoalNear_isEnd_distanceSq. intros H.
    rewrite <- (Rabs_square r'). rewrite <- (Rabs_square r) in H.
    pose proof (Rabs_pos r). nra.
Qed.

(** ** [GoalGetToBlock] *)

Lemma distanceXZ_unit :
  distanceXZ 1 0 = 1 /\ distanceXZ (-1) 0 = 1 /\ distanceXZ 0 1 = 1
  /\ distanceXZ 0 (-1) = 1 /\ distanceXZ 0 0 = 0.
Proof.
  rewrite (distanceXZ_sym 0 1), (distanceXZ_sym 0 (-1)), !distanceXZ_0_r.
  rewrite Rabs_R1, Rabs_R0, Rabs_left by lra. repeat split; lra.
Qed.

(** X13.  For a [GoalGetToBlock] on any target: [isEnd] is true exactly on
    the ten cells at adjusted Manhattan distance 1 of the target, the
    heuristic is 1 on each of them, and the two nodes where the heuristic
    is 0, the target cell and the cell below it, are not ends. *)
Theorem GetToBlock_end_cells (x y z : Z) (node : Node.t) :
  let g := GetToBlock (GoalGetToBlock.mk x y z) in
  let dx := (Node.x node - x)%Z in
  let dy := (Node.y node - y)%Z in
  let dz := (Node.z node - z)%Z in
  (isEnd g node = true <-> In (Node.mk dx dy dz) reachNeighbours)
  /\ (isEnd g node = true -> heuristic g node = 1)
  /\ (heuristic g node = 0 <-> dx = 0%Z /\ dz = 0%Z /\ (dy = 0%Z \/ dy = (-1)%Z))
  /\ (heuristic g node = 0 -> isEnd g node = false).
Proof.
  intros g dx dy dz.
  assert (E : isEnd g node = true <-> In (Node.mk dx dy dz) reachNeighbours).
  { unfold g. cbn [isEnd]. rewrite GetToBlock_isEnd_manhattan.
    apply adjustedManhattan_one. }
  assert (Hh : heuristic g node
               = distanceXZ (IZR dx) (IZR dz)
                 + IZR (Z.abs (if (dy <? 0)%Z then dy + 1 else dy))) by reflexivity.
  destruct distanceXZ_unit as (U1 & U2 & U3 & U4 & U0).
  assert (Z0 : heuristic g node = 0
               <-> dx = 0%Z /\ dz = 0%Z /\ (dy = 0%Z \/ dy = (-1)%Z)).
  { rewrite Hh. destruct (distanceXZ_zero dx dz) as [D0 D1].
    pose proof (IZR_le _ _ (Z.abs_nonneg (if (dy <? 0)%Z then dy + 1 else dy))) as A0.
    split.
    - intros H.
      assert (H1 : distanceXZ (IZR dx) (IZR dz) = 0) by lra.
      assert (H2 : IZR (Z.abs (if (dy <? 0)%Z then dy + 1 else dy)) = 0) by lra.
      apply D1 in H1. apply eq_IZR_R0 in H2.
      destruct (Z.ltb_spec dy 0); lia.
    - intros (Hx & Hz & Hy).
      assert (H1 : distanceXZ (IZR dx) (IZR dz) = 0) by (apply D1; lia).
      assert (H2 : Z.abs (if (dy <? 0)%Z then dy + 1 else dy) = 0%Z)
        by (destruct (Z.ltb_spec dy 0); lia).
      rewrite H1, H2. lra. }
  clearbody dx dy dz.
  split; [exact E|]. split; [|split; [exact Z0|]].
  - intros H. apply E in H. rewrite Hh. unfold reachNeighbours in H.
    repeat (destruct H as [H|H];
            [injection H as <- <- <-;
             match goal with
             | |- context [IZR (Z.abs ?e)] =>
                 let v := eval vm_compute in (Z.abs e) in change (Z.abs e) with v
             end;
             first [rewrite U1 | rewrite U2 | rewrite U3 | rewrite U4 | rewrite U0]; lra|]).
    destruct H.
  - intros H. apply Z0 in H. apply not_true_is_false. intros N.
    apply E in N. destruct H as (Hx & Hz & Hy). rewrite Hx, Hz in N.
    unfold reachNeighbours in N.
    repeat (destruct N as [N|N]; [injection N; lia|]). destruct N.
Qed.

(** ** [GoalFollow] *)

Lemma GoalFollow_hasChanged_cases (h : Entity.heap) (this : GoalFollow.t) :
  let p := Entity.floored (h (GoalFollow.entity this)) in
  GoalFollow.hasChanged h this = (false, this)
  \/ GoalFollow.hasChanged h this
     = (true, GoalFollow.mk (GoalFollow.entity this) (Node.x p) (Node.y p) (Node.z p)
                            (GoalFollow.rangeSq this)).
Proof.
  intros p. unfold GoalFollow.hasChanged. fold p.
  destruct (JS.gtb _ _); [now right | now left].
Qed.

Lemma GoalFollow_at_target (e : Entity.ref) (x y z : Z) (rangeSq : R) (h : Entity.heap) :
  0 <= rangeSq ->
  Entity.floored (h e) = Node.mk x y z ->
  GoalFollow.hasChanged h (GoalFollow.mk e x y z rangeSq)
  = (false, GoalFollow.mk e x y z rangeSq)
  /\ GoalFollow.isEnd (GoalFollow.mk e x y z rangeSq) (Node.mk x y z) = true.
Proof.
  intros Hr Hp. unfold GoalFollow.hasChanged, GoalFollow.isEnd.
  cbn [GoalFollow.entity GoalFollow.x GoalFollow.y GoalFollow.z GoalFollow.rangeSq].
  rewrite Hp. cbn [Node.x Node.y Node.z]. rewrite !Z.sub_diag. cbn [Z.mul Z.add].
  replace (JS.gtb 0 rangeSq) with false by (symmetry; now apply gtb_false).
  replace (JS.leb 0 rangeSq) with true by (symmetry; now apply leb_true).
  split; reflexivity.
Qed.

(** X14.  A follow goal as its constructor leaves it is at rest: asked at
    once, [hasChanged] returns false, and the entity's cell is an end.
    After any call of [hasChanged], a second call on the same entity
    position returns false and changes nothing, so a move of the entity is
    reported once; the entity reference and [rangeSq] are never modified,
    and after a reported change the entity's cell is an end. *)
Theorem GoalFollow_settles (h0 h : Entity.heap) (e : Entity.ref) (range : R) :
  let g := GoalFollow.new h0 e range in
  let r := GoalFollow.hasChanged h g in
  GoalFollow.hasChanged h0 g = (false, g)
  /\ GoalFollow.isEnd g (Entity.floored (h0 e)) = true
  /\ GoalFollow.hasChanged h (snd r) = (false, snd r)
  /\ GoalFollow.entity (snd r) = e
  /\ GoalFollow.rangeSq (snd r) = range * range
  /\ (fst r = true -> GoalFollow.isEnd (snd r) (Entity.floored (h e)) = true).
Proof.
  intros g r.
  assert (Hr : 0 <= range * range) by nra.
  assert (Fresh : GoalFollow.hasChanged h0 g = (false, g)
                  /\ GoalFollow.isEnd g (Entity.floored (h0 e)) = true).
  { apply GoalFollow_at_target; [exact Hr | reflexivity]. }
  destruct Fresh as [F1 F2]. split; [exact F1|]. split; [exact F2|].
  unfold r. destruct (GoalFollow_hasChanged_cases h g) as [E|E]; rewrite E; cbn [fst snd].
  - rewrite E. repeat split; try reflexivity. discriminate.
  - change (GoalFollow.entity g) with e. change (GoalFollow.rangeSq g) with (range * range).
    destruct (GoalFollow_at_target e
                (Node.x (Entity.floored (h e))) (Node.y (Entity.floored (h e)))
                (Node.z (Entity.floored (h e))) (range * range) h Hr) as [A B].
    { now destruct (Entity.floored (h e)). }
    split; [exact A|]. repeat split. intros _.
    destruct (Entity.floored (h e)) as [px py pz]. exact B.
Qed.

(** ** [vectorToDirection] and the constructor of [GoalPlaceBlock] *)

Ltac decide_ltb :=
  repeat match goal with
         | |- context [JS.ltb ?a ?b] =>
             first [ replace (JS.ltb a b) with true by (symmetry; apply ltb_true; lra)
                   | replace (JS.ltb a b) with false by (symmetry; apply ltb_false; lra) ]
         end.

(** X15.  [vectorToDirection] returns no index on the zero vector only, and
    otherwise an index from 0 to 5.  On the six default faces, in their
    order, the indices are 0 to 5, and the index of the opposite face, the
    one compared with the ray's, is the other index of the same axis. *)
Theorem vectorToDirection_faces :
  (forall v, vectorToDirection v = None <-> v = Vec3.mk 0 0 0)
  /\ (forall v i, vectorToDirection v = Some i -> (0 <= i <= 5)%Z)
  /\ map vectorToDirection GoalPlaceBlock.defaultFaces
     = [Some 0; Some 1; Some 2; Some 3; Some 4; Some 5]%Z
  /\ map (fun face => vectorToDirection (Vec3.scaled face (-1)))
         GoalPlaceBlock.defaultFaces
     = [Some 1; Some 0; Some 3; Some 2; Some 5; Some 4]%Z.
Proof.
  split; [|split; [|split]].
  - intros [vx vy vz]. unfold vectorToDirection, JS.gtb. cbn [Vec3.x Vec3.y Vec3.z].
    split.
    + intros H.
      destruct (JS.ltb vy 0) eqn:Y1; [discriminate|].
      destruct (JS.ltb 0 vy) eqn:Y2; [discriminate|].
      destruct (JS.ltb vz 0) eqn:Z1; [discriminate|].
      destruct (JS.ltb 0 vz) eqn:Z2; [discriminate|].
      destruct (JS.ltb vx 0) eqn:X1; [discriminate|].
      destruct (JS.ltb 0 vx) eqn:X2; [discriminate|].
      apply ltb_false in Y1, Y2, Z1, Z2, X1, X2.
      f_equal; lra.
    + intros H. injection H as -> -> ->. decide_ltb. reflexivity.
  - intros v i. unfold vectorToDirection.
    repeat match goal with
           | |- context [if ?c then _ else _] => destruct c
           end; intros H; try discriminate H; injection H as <-; lia.
  - unfold GoalPlaceBlock.defaultFaces, vectorToDirection, JS.gtb.
    cbn [map Vec3.x Vec3.y Vec3.z]. decide_ltb. reflexivity.
  - unfold GoalPlaceBlock.defaultFaces, vectorToDirection, JS.gtb, Vec3.scaled.
    cbn [map Vec3.x Vec3.y Vec3.z]. decide_ltb. reflexivity.
Qed.

Lemma indexOf_from_range (i : Z) (l : list string) (s : string) :
  (JS.indexOf_from i l s = -1 /\ ~ In s l)%Z
  \/ (In s l /\ i <= JS.indexOf_from i l s < i + Z.of_nat (List.length l))%Z.
Proof.
  revert i. induction l as [|k l IH]; intros i; simpl.
  - left. tauto.
  - destruct (String.eqb_spec k s) as [->|N].
    + right. split; [now left | lia].
    + destruct (IH (i + 1)%Z) as [[E Hn]|[Hin Hr]].
      * left. split; [exact E | intros [H|H]; contradiction].
      * right. split; [now right | lia].
Qed.

(** X16.  The facing index the constructor stores is always between -1 and
    5, and it is -1 exactly when the option is missing or is a string
    outside the six names. *)
Theorem GoalPlaceBlock_facing_index
        (getShapeFaceCenters : list World.Shape -> Vec3.t -> option string -> list Vec3.t)
        (pos : Vec3.t) (world : World.t) (o : GoalPlaceBlock.Options.t) :
  let facing :=
    GoalPlaceBlock.facing
      (GoalPlaceBlock.opts (GoalPlaceBlock.new getShapeFaceCenters pos world o)) in
  (-1 <= facing <= 5)%Z
  /\ (facing = (-1)%Z
      <-> forall s, GoalPlaceBlock.Options.facing o = Some s ->
                    ~ In s GoalPlaceBlock.facingNames).
Proof.
  unfold GoalPlaceBlock.new, GoalPlaceBlock.fillOptions.
  cbn [GoalPlaceBlock.opts GoalPlaceBlock.facing].
  destruct (GoalPlaceBlock.Options.facing o) as [s|].
  - unfold JS.indexOf.
    destruct (indexOf_from_range 0 GoalPlaceBlock.facingNames s) as [[E Hn]|[Hin Hr]].
    + rewrite E. split; [lia|]. split; [|reflexivity].
      intros _ s' H. now injection H as <-.
    + change (Z.of_nat (List.length GoalPlaceBlock.facingNames)) with 6%Z in Hr.
      split; [lia|]. split; [lia|].
      intros H. exfalso. now apply (H s).
  - split; [lia|]. split; [|reflexivity]. intros _ s H. discriminate H.
Qed.

(** ** [GoalPlaceBlock]: heuristic and the anchor cell *)

Lemma adjusted_IZR (b : Z) :
  Rabs (if JS.ltb (IZR b) 0 then IZR b + 1 else IZR b)
  = IZR (Z.abs (if (b <? 0)%Z then b + 1 else b)).
Proof.
  rewrite abs_IZR. destruct (Z.ltb_spec b 0) as [H|H].
  - replace (JS.ltb (IZR b) 0) with true
      by (symmetry; apply ltb_true; now apply IZR_lt).
    now rewrite plus_IZR.
  - replace (JS.ltb (IZR b) 0) with false
      by (symmetry; apply ltb_false; now apply IZR_le).
    reflexivity.
Qed.

Section Anchor.

Variable getShapeFaceCenters :
  list World.Shape -> Vec3.t -> option string -> list Vec3.t.
Variables (pos : Vec3.t) (world : World.t) (o : GoalPlaceBlock.Options.t).

Local Abbreviation placed := (GoalPlaceBlock.new getShapeFaceCenters pos world o).
Local Abbreviation ax := (JS.floor (Vec3.x pos)).
Local Abbreviation ay := (JS.floor (Vec3.y pos)).
Local Abbreviation az := (JS.floor (Vec3.z pos)).

Lemma isStandingIn_manhattan (node : Node.t) :
  GoalPlaceBlock.isStandingIn placed node = true
  <-> (adjustedManhattan (Node.x node - ax) (Node.y node - ay) (Node.z node - az) < 1)%Z.
Proof.
  unfold GoalPlaceBlock.isStandingIn, GoalPlaceBlock.new, Vec3.floored.
  cbn [GoalPlaceBlock.pos Vec3.x Vec3.y Vec3.z].
  rewrite <- !minus_IZR, adjusted_IZR, !Rabs_Zabs, <- !plus_IZR.
  fold (adjustedManhattan (Node.x node - ax) (Node.y node - ay) (Node.z node - az)).
  rewrite ltb_true. split; [apply lt_IZR with (m := 1%Z) | apply IZR_lt with (m := 1%Z)].
Qed.

(** X17.  The heuristic of a placement goal is the heuristic of the
    [GoalGetToBlock] built on the same position: the octile distance to the
    floored anchor plus the adjusted vertical offset. *)
Theorem GoalPlaceBlock_heuristic_adjacent (node : Node.t) :
  heuristic (PlaceBlock placed) node
  = heuristic (GetToBlock (GoalGetToBlock.new (Vec3.x pos) (Vec3.y pos) (Vec3.z pos)))
              node.
Proof.
  cbn [heuristic].
  unfold GoalPlaceBlock.heuristic, GoalGetToBlock.heuristic, GoalPlaceBlock.new,
    GoalGetToBlock.new, Vec3.floored.
  cbn [GoalPlaceBlock.pos Vec3.x Vec3.y Vec3.z
       GoalGetToBlock.x GoalGetToBlock.y GoalGetToBlock.z].
  rewrite <- !minus_IZR, adjusted_IZR. reflexivity.
Qed.

(** X18.  A bot stands in the block to place when its feet are in the
    anchor cell or in the cell just below it (its head is then in the
    anchor cell), and in no other cell; on these two nodes [isEnd] is false
    whatever the faces, the range and the world are. *)
Theorem GoalPlaceBlock_standing_cells (node : Node.t) :
  (GoalPlaceBlock.isStandingIn placed node = true
   <-> Node.x node = ax /\ Node.z node = az
       /\ (Node.y node = ay \/ Node.y node = (ay - 1)%Z))
  /\ isEnd (PlaceBlock placed) (Node.mk ax ay az) = false
  /\ isEnd (PlaceBlock placed) (Node.mk ax (ay - 1) az) = false.
Proof.
  assert (S : forall n, GoalPlaceBlock.isStandingIn placed n = true
                        <-> Node.x n = ax /\ Node.z n = az
                            /\ (Node.y n = ay \/ Node.y n = (ay - 1)%Z)).
  { intros n. rewrite isStandingIn_manhattan. unfold adjustedManhattan.
    destruct (Z.ltb_spec (Node.y n - ay) 0); lia. }
  split; [apply S|].
  split; cbn [isEnd]; unfold GoalPlaceBlock.isEnd.
  - replace (GoalPlaceBlock.isStandingIn placed (Node.mk ax ay az)) with true;
      [reflexivity|].
    symmetry. apply S. cbn [Node.x Node.y Node.z]. lia.
  - replace (GoalPlaceBlock.isStandingIn placed (Node.mk ax (ay - 1) az)) with true;
      [reflexivity|].
    symmetry. apply S. cbn [Node.x Node.y Node.z]. lia.
Qed.

(** The entries of [facesPos], as the two loops of the constructor push
    them. *)
Lemma facesPos_entries (dir to ref : Vec3.t) :
  In (dir, to, ref) (GoalPlaceBlock.facesPos placed)
  <-> In dir (GoalPlaceBlock.faces (GoalPlaceBlock.opts placed))
      /\ ref = Vec3.plus (Vec3.floored pos) dir
      /\ exists center,
          In center (getShapeFaceCenters
                       (World.shapes (World.getBlock world ref))
                       (Vec3.scaled dir (-1)) (GoalPlaceBlock.Options.half o))
          /\ to = Vec3.plus center ref.
Proof.
  unfold GoalPlaceBlock.new.
  cbn [GoalPlaceBlock.facesPos GoalPlaceBlock.opts].
  rewrite in_flat_map. split.
  - intros (d & Hd & Hin). apply in_map_iff in Hin.
    destruct Hin as (c & E & Hc). injection E as <- <- <-.
    split; [exact Hd|]. split; [reflexivity|]. now exists c.
  - intros (Hd & -> & c & Hc & ->). exists dir. split; [exact Hd|].
    apply in_map_iff. now exists c.
Qed.

(** X19.  The candidates of a placement goal are exactly the triples made
    of a permitted face direction, the block next to the floored anchor in
    that direction, and a point of that block that [getShapeFaceCenters]
    gives for the face looking back at the anchor, moved to the block's
    position.  With [faces: []], which is not replaced by the default, or
    when no face has a center, there is no candidate. *)
Theorem GoalPlaceBlock_candidates (dir to ref : Vec3.t) :
  (In (dir, to, ref) (GoalPlaceBlock.facesPos placed)
   <-> In dir (GoalPlaceBlock.faces (GoalPlaceBlock.opts placed))
       /\ ref = Vec3.plus (Vec3.floored pos) dir
       /\ exists center,
           In center (getShapeFaceCenters
                        (World.shapes (World.getBlock world ref))
                        (Vec3.scaled dir (-1)) (GoalPlaceBlock.Options.half o))
           /\ to = Vec3.plus center ref)
  /\ (GoalPlaceBlock.Options.faces o = Some [] -> GoalPlaceBlock.facesPos placed = [])
  /\ (GoalPlaceBlock.Options.faces o = None ->
      GoalPlaceBlock.faces (GoalPlaceBlock.opts placed) = GoalPlaceBlock.defaultFaces)
  /\ ((forall shapes normal half, getShapeFaceCenters shapes normal half = []) ->
      GoalPlaceBlock.facesPos placed = []).
Proof.
  split; [apply facesPos_entries|]. split; [|split].
  - intros H. unfold GoalPlaceBlock.new, GoalPlaceBlock.fillOptions.
    cbn [GoalPlaceBlock.facesPos GoalPlaceBlock.faces]. now rewrite H.
  - intros H. unfold GoalPlaceBlock.new, GoalPlaceBlock.fillOptions.
    cbn [GoalPlaceBlock.opts GoalPlaceBlock.faces]. now rewrite H.
  - intros H. unfold GoalPlaceBlock.new. cbn [GoalPlaceBlock.facesPos].
    induction (GoalPlaceBlock.faces (GoalPlaceBlock.fillOptions o)) as [|d l IH];
      [reflexivity|].
    cbn [flat_map]. rewrite H, IH. reflexivity.
Qed.

End Anchor.

(** ** [GoalPlaceBlock]: reach, sight and facing *)

Section Reach.

Variables (this : GoalPlaceBlock.t) (headPos : Vec3.t).

(** Whatever [LOS] is, an entry that is returned is in range and faced. *)
Lemma tryFace_in_reach (entry : Vec3.t * Vec3.t * Vec3.t) (r : GoalPlaceBlock.FaceAndRef) :
  GoalPlaceBlock.tryFace this headPos entry = Some r ->
  r = Candidate.result entry
  /\ Candidate.inRange this headPos entry
  /\ Candidate.faced this headPos entry.
Proof.
  destruct entry as [[face to] ref].
  unfold GoalPlaceBlock.tryFace, Candidate.result, Candidate.inRange, Candidate.faced.
  destruct (JS.gtb _ _) eqn:Er; [discriminate|]. apply gtb_false in Er.
  destruct (GoalPlaceBlock.checkFacing this _) eqn:Ef; cbn [negb]; [|discriminate].
  destruct (negb (GoalPlaceBlock.LOS (GoalPlaceBlock.opts this))).
  - intros H. injection H as <-. auto.
  - destruct (World.raycast _ _ _ _) as [block|]; [|discriminate].
    destruct (_ && _); [|discriminate].
    intros H. injection H as <-. auto.
Qed.

(** Without [LOS], being in range and faced is all that is asked. *)
Lemma tryFace_without_LOS (entry : Vec3.t * Vec3.t * Vec3.t) :
  GoalPlaceBlock.LOS (GoalPlaceBlock.opts this) = false ->
  (Candidate.inRange this headPos entry /\ Candidate.faced this headPos entry ->
   GoalPlaceBlock.tryFace this headPos entry = Some (Candidate.result entry))
  /\ (~ (Candidate.inRange this headPos entry /\ Candidate.faced this headPos entry) ->
      GoalPlaceBlock.tryFace this headPos entry = None).
Proof.
  intros L. split.
  - destruct entry as [[face to] ref].
    unfold GoalPlaceBlock.tryFace, Candidate.result, Candidate.inRange, Candidate.faced.
    intros [Hr Hf]. rewrite L, Hf. cbn [negb].
    now replace (JS.gtb _ _) with false by (symmetry; now apply gtb_false).
  - intros N. destruct (GoalPlaceBlock.tryFace this headPos entry) as [r|] eqn:E;
      [|reflexivity].
    apply tryFace_in_reach in E. tauto.
Qed.

Lemma tryFace_world_irrelevant (w : World.t) (entry : Vec3.t * Vec3.t * Vec3.t) :
  GoalPlaceBlock.LOS (GoalPlaceBlock.opts this) = false ->
  GoalPlaceBlock.tryFace (withWorld this w) headPos entry
  = GoalPlaceBlock.tryFace this headPos entry.
Proof.
  intros L. destruct entry as [[face to] ref].
  unfold GoalPlaceBlock.tryFace, withWorld, GoalPlaceBlock.checkFacing.
  cbn [GoalPlaceBlock.opts GoalPlaceBlock.world]. rewrite L. cbn [negb].
  reflexivity.
Qed.

(** X20.  With [LOS] false the world is not consulted: the answer of
    [getFaceAndRef] is the same in every world, and it is the first entry
    of [facesPos] that is in range and faced, every entry before it failing
    one of the two tests. *)
Theorem getFaceAndRef_without_LOS :
  GoalPlaceBlock.LOS (GoalPlaceBlock.opts this) = false ->
  (forall w,
      GoalPlaceBlock.getFaceAndRef (withWorld this w) headPos
      = GoalPlaceBlock.getFaceAndRef this headPos)
  /\ (forall r,
         GoalPlaceBlock.getFaceAndRef this headPos = Some r
         <-> exists before entry after,
             GoalPlaceBlock.facesPos this = before ++ entry :: after
             /\ r = Candidate.result entry
             /\ Candidate.inRange this headPos entry
             /\ Candidate.faced this headPos entry
             /\ Forall (fun b => ~ (Candidate.inRange this headPos b
                                    /\ Candidate.faced this headPos b)) before).
Proof.
  intros L. split.
  - intros w. unfold GoalPlaceBlock.getFaceAndRef.
    change (GoalPlaceBlock.facesPos (withWorld this w)) with (GoalPlaceBlock.facesPos this).
    induction (GoalPlaceBlock.facesPos this) as [|e rest IH]; [reflexivity|].
    cbn [GoalPlaceBlock.getFaceAndRef_from].
    now rewrite (tryFace_world_irrelevant w e L), IH.
  - intros r. unfold GoalPlaceBlock.getFaceAndRef.
    rewrite getFaceAndRef_from_first. split.
    + intros (b & e & a & Hl & Hb & He). exists b, e, a.
      apply tryFace_in_reach in He. destruct He as (Hr & Hi & Hf).
      repeat split; trivial.
      rewrite Forall_forall in *. intros x Hx N.
      destruct (tryFace_without_LOS x L) as [A _].
      specialize (Hb x Hx). rewrite (A N) in Hb. discriminate Hb.
    + intros (b & e & a & Hl & -> & Hi & Hf & Hb). exists b, e, a.
      split; [exact Hl|]. split.
      * rewrite Forall_forall in *. intros x Hx.
        now apply (tryFace_without_LOS x L), Hb.
      * now apply (tryFace_without_LOS e L).
Qed.

End Reach.

(** The statement above for the goal on the floor built without line of
    sight. *)
Lemma getFaceAndRef_without_LOS_witness :
  let this :=
    GoalPlaceBlock.new topCenter (Vec3.mk 0 0 0) (rayWorld None)
      (GoalPlaceBlock.Options.mk None (Some [Vec3.mk 0 (-1) 0]) None false None
                                 (Some false)) in
  (forall w,
      GoalPlaceBlock.getFaceAndRef (withWorld this w) floorEye
      = GoalPlaceBlock.getFaceAndRef this floorEye)
  /\ (forall r,
         GoalPlaceBlock.getFaceAndRef this floorEye = Some r
         <-> exists before entry after,
             GoalPlaceBlock.facesPos this = before ++ entry :: after
             /\ r = Candidate.result entry
             /\ Candidate.inRange this floorEye entry
             /\ Candidate.faced this floorEye entry
             /\ Forall (fun b => ~ (Candidate.inRange this floorEye b
                                    /\ Candidate.faced this floorEye b)) before).
Proof.
  intros this. apply (getFaceAndRef_without_LOS this floorEye). reflexivity.
Defined.

Lemma isEnd_reach (this : GoalPlaceBlock.t) (node : Node.t) :
  isEnd (PlaceBlock this) node = true ->
  GoalPlaceBlock.isStandingIn this node = false
  /\ exists entry,
      In entry (GoalPlaceBlock.facesPos this)
      /\ Candidate.inRange this (eyeOf node) entry
      /\ Candidate.faced this (eyeOf node) entry.
Proof.
  cbn [isEnd]. unfold GoalPlaceBlock.isEnd. fold (eyeOf node).
  destruct (GoalPlaceBlock.isStandingIn this node); [discriminate|].
  destruct (GoalPlaceBlock.getFaceAndRef this (eyeOf node)) as [r|] eqn:E; [|discriminate].
  intros _. split; [reflexivity|].
  apply getFaceAndRef_from_first in E. destruct E as (b & e & a & Hl & _ & He).
  apply tryFace_in_reach in He. exists e. rewrite Hl.
  split; [apply in_elt | tauto].
Qed.

(** X21.  A node is an end of a placement goal only if the bot does not
    stand in the block to place and some candidate is within [range] of its
    eye and faced; a goal without candidate has no end. *)
Theorem GoalPlaceBlock_isEnd_in_reach (this : GoalPlaceBlock.t) (node : Node.t) :
  isEnd (PlaceBlock this) node = true ->
  GoalPlaceBlock.isStandingIn this node = false
  /\ exists entry,
      In entry (GoalPlaceBlock.facesPos this)
      /\ Candidate.inRange this (eyeOf node) entry
      /\ Candidate.faced this (eyeOf node) entry.
Proof. apply isEnd_reach. Qed.

(** The statement above for the goal on the floor and the node (1,0,0),
    where the ray confirms the floor's top face. *)
Lemma GoalPlaceBlock_isEnd_in_reach_witness :
  let this := placeOnFloor (rayWorld (Some (floorHit 1))) in
  GoalPlaceBlock.isStandingIn this (Node.mk 1 0 0) = false
  /\ exists entry,
      In entry (GoalPlaceBlock.facesPos this)
      /\ Candidate.inRange this (eyeOf (Node.mk 1 0 0)) entry
      /\ Candidate.faced this (eyeOf (Node.mk 1 0 0)) entry.
Proof.
  intros this. apply (GoalPlaceBlock_isEnd_in_reach this (Node.mk 1 0 0)).
  apply placeOnFloor_accepts.
Defined.

Lemma facing_refused_no_end (this : GoalPlaceBlock.t) :
  (forall dir, GoalPlaceBlock.checkFacing this dir = false) ->
  forall node, isEnd (PlaceBlock this) node = false.
Proof.
  intros H node. apply not_true_is_false. intros E.
  apply isEnd_reach in E. destruct E as (_ & [[face to] ref] & _ & _ & F).
  unfold Candidate.faced in F. rewrite H in F. discriminate F.
Qed.

(** X22.  Without [facing3D], a facing of [up] or [down] (index 4 or 5) is
    compared with a quadrant between 0 and 3: [checkFacing] refuses every
    direction, and the goal has no end at all. *)
Theorem vertical_facing_needs_3D (this : GoalPlaceBlock.t) :
  GoalPlaceBlock.facing3D (GoalPlaceBlock.opts this) = false ->
  (4 <= GoalPlaceBlock.facing (GoalPlaceBlock.opts this))%Z ->
  (forall dir, GoalPlaceBlock.checkFacing this dir = false)
  /\ (forall node, isEnd (PlaceBlock this) node = false).
Proof.
  intros H3 Hf.
  assert (C : forall dir, GoalPlaceBlock.checkFacing this dir = false).
  { intros dir. rewrite checkFacing_horizontal by (trivial; lia).
    apply Z.eqb_neq.
    pose proof (Z.mod_pos_bound
                  (JS.floor ((JS.atan2_neg (Vec3.x dir) (Vec3.z dir) * 180 / PI + 180)
                             / 90 + 0.5)) 4).
    lia. }
  split; [exact C | now apply facing_refused_no_end].
Qed.

(** The statement above for the goal on the floor asked to face up. *)
Lemma vertical_facing_needs_3D_witness :
  let this :=
    GoalPlaceBlock.new topCenter (Vec3.mk 0 0 0) (rayWorld (Some (floorHit 1)))
      (GoalPlaceBlock.Options.mk None (Some [Vec3.mk 0 (-1) 0]) (Some "up"%string)
                                 false None None) in
  (forall dir, GoalPlaceBlock.checkFacing this dir = false)
  /\ (forall node, isEnd (PlaceBlock this) node = false).
Proof.
  intros this. apply (vertical_facing_needs_3D this).
  - reflexivity.
  - unfold this, GoalPlaceBlock.new. cbn. lia.
Defined.

Lemma atan_gt_quarter' (t : R) : 1 < t -> PI / 4 < atan t.
Proof. intros H. rewrite <- atan_1. now apply atan_increasing. Qed.

Lemma atan_lt_quarter' (t : R) : t < -1 -> atan t < - (PI / 4).
Proof. intros H. rewrite <- atan_1, <- atan_opp. now apply atan_increasing. Qed.

(** The vertical angle of a direction that rises or falls more steeply than
    45 degrees. *)
Lemma vAngle_steep (y dH : R) :
  0 <= dH ->
  (dH < y -> 45 < JS.atan2 y dH * 180 / PI)
  /\ (y < - dH -> JS.atan2 y dH * 180 / PI < -45).
Proof.
  intros H0. pose proof PI_RGT_0 as P. unfold JS.atan2.
  destruct (Rlt_dec 0 dH) as [Hp|Hn].
  - assert (Hi : 0 < / dH) by now apply Rinv_0_lt_compat.
    assert (E : dH * / dH = 1) by (apply Rinv_r; lra).
    split; intros H.
    + apply degrees_gt.
      assert (T : 1 < y / dH).
      { unfold Rdiv. rewrite <- E. apply Rmult_lt_compat_r; assumption. }
      apply atan_gt_quarter' in T. lra.
    + apply degrees_lt.
      assert (T : y / dH < -1).
      { unfold Rdiv. replace (-1) with (- dH * / dH) by lra.
        apply Rmult_lt_compat_r; assumption. }
      apply atan_lt_quarter' in T. lra.
  - destruct (Rlt_dec dH 0) as [Hm|_]; [lra|].
    assert (Hz : dH = 0) by lra. subst dH.
    split; intros H.
    + destruct (Rlt_dec 0 y) as [_|N]; [|lra]. apply degrees_gt. lra.
    + destruct (Rlt_dec 0 y) as [N|_]; [lra|].
      destruct (Rlt_dec y 0) as [_|N]; [|lra]. apply degrees_lt. lra.
Qed.

(** X23.  With [facing3D] and a facing among the six names, a direction
    steeper than 45 degrees is judged on its vertical sense alone: rising,
    it is accepted exactly when the facing is [up]; falling, exactly when
    it is [down].  The horizontal bearing is not looked at. *)
Theorem checkFacing_steep (this : GoalPlaceBlock.t) (dir : Vec3.t) :
  GoalPlaceBlock.facing3D (GoalPlaceBlock.opts this) = true ->
  (0 <= GoalPlaceBlock.facing (GoalPlaceBlock.opts this))%Z ->
  sqrt (Vec3.x dir * Vec3.x dir + Vec3.z dir * Vec3.z dir) < Rabs (Vec3.y dir) ->
  GoalPlaceBlock.checkFacing this dir
  = (GoalPlaceBlock.facing (GoalPlaceBlock.opts this)
     =? (if JS.ltb 0 (Vec3.y dir) then 4 else 5))%Z.
Proof.
  intros H3 Hf Hs.
  set (dH := sqrt (Vec3.x dir * Vec3.x dir + Vec3.z dir * Vec3.z dir)) in *.
  assert (H0 : 0 <= dH) by apply sqrt_pos.
  destruct (vAngle_steep (Vec3.y dir) dH H0) as [Up Down].
  unfold GoalPlaceBlock.checkFacing. rewrite H3. fold dH.
  replace (GoalPlaceBlock.facing (GoalPlaceBlock.opts this) <? 0)%Z with false
    by (symmetry; apply Z.ltb_ge; exact Hf).
  destruct (JS.ltb 0 (Vec3.y dir)) eqn:Ey.
  - apply ltb_true in Ey. rewrite Rabs_right in Hs by lra.
    replace (JS.gtb (JS.atan2 (Vec3.y dir) dH * 180 / PI) 45) with true
      by (symmetry; apply gtb_true; now apply Up).
    reflexivity.
  - apply ltb_false in Ey.
    assert (Hy : Vec3.y dir < - dH).
    { destruct (Rcase_abs (Vec3.y dir)) as [N|N].
      - rewrite Rabs_left in Hs by exact N. lra.
      - rewrite Rabs_right in Hs by exact N. lra. }
    specialize (Down Hy).
    replace (JS.gtb (JS.atan2 (Vec3.y dir) dH * 180 / PI) 45) with false
      by (symmetry; apply gtb_false; lra).
    replace (JS.ltb (JS.atan2 (Vec3.y dir) dH * 180 / PI) (-45)) with true
      by (symmetry; now apply ltb_true).
    reflexivity.
Qed.

(** The statement above for a goal asked to face north in three
    dimensions and the direction (1,2,0), which it refuses. *)
Lemma checkFacing_steep_witness :
  let this :=
    GoalPlaceBlock.new topCenter (Vec3.mk 0 0 0) (rayWorld None)
      (GoalPlaceBlock.Options.mk None None (Some "north"%string) true None None) in
  let dir := Vec3.mk 1 2 0 in
  GoalPlaceBlock.checkFacing this dir
  = (GoalPlaceBlock.facing (GoalPlaceBlock.opts this)
     =? (if JS.ltb 0 (Vec3.y dir) then 4 else 5))%Z.
Proof.
  intros this dir. apply (checkFacing_steep this dir).
  - reflexivity.
  - unfold this, GoalPlaceBlock.new. cbn. lia.
  - unfold dir. cbn [Vec3.x Vec3.y Vec3.z].
    replace (1 * 1 + 0 * 0) with 1 by lra.
    rewrite sqrt_1, Rabs_right by lra. lra.
Defined.

Lemma ratio_gt_1 (x w : R) : 0 < w -> w < x -> 1 < x / w.
Proof.
  intros Hw Hx. assert (Hi : 0 < / w) by now apply Rinv_0_lt_compat.
  assert (E : w * / w = 1) by (apply Rinv_r; lra).
  unfold Rdiv. rewrite <- E. now apply Rmult_lt_compat_r.
Qed.

Lemma ratio_lt_m1 (x w : R) : 0 < w -> x < - w -> x / w < -1.
Proof.
  intros Hw Hx. assert (Hi : 0 < / w) by now apply Rinv_0_lt_compat.
  assert (E : w * / w = 1) by (apply Rinv_r; lra).
  unfold Rdiv. replace (-1) with (- w * / w) by lra. now apply Rmult_lt_compat_r.
Qed.

(** The quadrant of a direction that bears within 45 degrees of east (the
    +x axis) is 3, the index of west. *)
Lemma quadrant_of_east (dir : Vec3.t) :
  Rabs (Vec3.z dir) < Vec3.x dir ->
  JS.floor ((JS.atan2 (Vec3.x dir) (- Vec3.z dir) * 180 / PI + 180) / 90 + 0.5) = 3%Z.
Proof.
  intros Hx. apply Rabs_def2 in Hx. destruct Hx as [H1 H2].
  pose proof PI_RGT_0 as P. unfold JS.atan2.
  destruct (Rlt_dec 0 (- Vec3.z dir)) as [Hp|Hn].
  - pose proof (atan_gt_quarter' _ (ratio_gt_1 (Vec3.x dir) (- Vec3.z dir) Hp ltac:(lra))) as A.
    pose proof (atan_bound (Vec3.x dir / - Vec3.z dir)) as [_ B].
    set (a := atan _) in *.
    assert (D1 : 45 < a * 180 / PI) by (apply degrees_gt; lra).
    assert (D2 : a * 180 / PI < 90) by (apply degrees_lt; lra).
    apply floor_between. lra.
  - destruct (Rlt_dec (- Vec3.z dir) 0) as [Hm|Hz].
    + destruct (Rle_dec 0 (Vec3.x dir)) as [_|N]; [|lra].
      assert (Er : Vec3.x dir / - Vec3.z dir = - (Vec3.x dir / Vec3.z dir))
        by (field; lra).
      rewrite Er, atan_opp.
      pose proof (atan_gt_quarter' _ (ratio_gt_1 (Vec3.x dir) (Vec3.z dir) ltac:(lra) ltac:(lra))) as A.
      pose proof (atan_bound (Vec3.x dir / Vec3.z dir)) as [_ B].
      set (a := atan _) in *.
      assert (D1 : 90 < (- a + PI) * 180 / PI) by (apply degrees_gt; lra).
      assert (D2 : (- a + PI) * 180 / PI < 135) by (apply degrees_lt; lra).
      apply floor_between. lra.
    + destruct (Rlt_dec 0 (Vec3.x dir)) as [_|N]; [|lra].
      rewrite (degrees_eq (PI / 2) 90) by lra. apply floor_between. lra.
Qed.

(** The quadrant of a direction that bears within 45 degrees of west (the
    -x axis) is 1, the index of east. *)
Lemma quadrant_of_west (dir : Vec3.t) :
  Rabs (Vec3.z dir) < - Vec3.x dir ->
  JS.floor ((JS.atan2 (Vec3.x dir) (- Vec3.z dir) * 180 / PI + 180) / 90 + 0.5) = 1%Z.
Proof.
  intros Hx. apply Rabs_def2 in Hx. destruct Hx as [H1 H2].
  pose proof PI_RGT_0 as P. unfold JS.atan2.
  destruct (Rlt_dec 0 (- Vec3.z dir)) as [Hp|Hn].
  - pose proof (atan_lt_quarter' _ (ratio_lt_m1 (Vec3.x dir) (- Vec3.z dir) Hp ltac:(lra))) as A.
    pose proof (atan_bound (Vec3.x dir / - Vec3.z dir)) as [B _].
    set (a := atan _) in *.
    assert (D1 : a * 180 / PI < -45) by (apply degrees_lt; lra).
    assert (D2 : -90 < a * 180 / PI) by (apply degrees_gt; lra).
    apply floor_between. lra.
  - destruct (Rlt_dec (- Vec3.z dir) 0) as [Hm|Hz].
    + destruct (Rle_dec 0 (Vec3.x dir)) as [N|_]; [lra|].
      assert (Er : Vec3.x dir / - Vec3.z dir = - (Vec3.x dir / Vec3.z dir))
        by (field; lra).
      rewrite Er, atan_opp.
      pose proof (atan_lt_quarter' _ (ratio_lt_m1 (Vec3.x dir) (Vec3.z dir) ltac:(lra) ltac:(lra))) as A.
      pose proof (atan_bound (Vec3.x dir / Vec3.z dir)) as [B _].
      set (a := atan _) in *.
      assert (D1 : (- a - PI) * 180 / PI < -90) by (apply degrees_lt; lra).
      assert (D2 : -135 < (- a - PI) * 180 / PI) by (apply degrees_gt; lra).
      apply floor_between. lra.
    + destruct (Rlt_dec 0 (Vec3.x dir)) as [N|_]; [lra|].
      destruct (Rlt_dec (Vec3.x dir) 0) as [_|N]; [|lra].
      rewrite (degrees_eq (- PI / 2) (-90)) by lra. apply floor_between. lra.
Qed.

(** X24.  Without [facing3D], a direction that lies strictly inside the
    sector of 90 degrees around a horizontal axis is accepted exactly when
    the facing is the name of the opposite side: a direction bearing north
    is accepted for [south] only, east for [west], south for [north], west
    for [east]. *)
Theorem checkFacing_cardinal (this : GoalPlaceBlock.t) (dir : Vec3.t) (k : Z) :
  GoalPlaceBlock.facing3D (GoalPlaceBlock.opts this) = false ->
  (0 <= GoalPlaceBlock.facing (GoalPlaceBlock.opts this))%Z ->
  cardinal dir = Some k ->
  GoalPlaceBlock.checkFacing this dir
  = (GoalPlaceBlock.facing (GoalPlaceBlock.opts this) =? (k + 2) mod 4)%Z.
Proof.
  intros H3 Hf Hc.
  pose proof (Rabs_pos (Vec3.x dir)) as Px. pose proof (Rabs_pos (Vec3.z dir)) as Pz.
  assert (Hh : Vec3.x dir <> 0 \/ Vec3.z dir <> 0).
  { destruct (Req_dec_T (Vec3.x dir) 0) as [Ex|Ex]; [|now left].
    destruct (Req_dec_T (Vec3.z dir) 0) as [Ez|Ez]; [|now right].
    exfalso. unfold cardinal in Hc. rewrite Ex, Ez, Rabs_R0, Ropp_0 in Hc.
    replace (JS.ltb 0 0) with false in Hc by (symmetry; apply ltb_false; lra).
    discriminate Hc. }
  rewrite checkFacing_horizontal_part by assumption.
  f_equal. unfold cardinal in Hc.
  destruct (JS.ltb (Rabs (Vec3.x dir)) (- Vec3.z dir)) eqn:N.
  { injection Hc as <-. apply ltb_true in N.
    rewrite quadrant_of_north; [reflexivity | | exact N]. lra. }
  destruct (JS.ltb (Rabs (Vec3.z dir)) (Vec3.x dir)) eqn:E.
  { injection Hc as <-. apply ltb_true in E.
    now rewrite quadrant_of_east. }
  destruct (JS.ltb (Rabs (Vec3.x dir)) (Vec3.z dir)) eqn:S.
  { injection Hc as <-. apply ltb_true in S.
    rewrite quadrant_of_south; [reflexivity | | exact S]. lra. }
  destruct (JS.ltb (Rabs (Vec3.z dir)) (- Vec3.x dir)) eqn:W; [|discriminate Hc].
  injection Hc as <-. apply ltb_true in W.
  now rewrite quadrant_of_west.
Qed.

(** The statement above for a goal asked to face west and a direction
    bearing east, which it accepts. *)
Lemma checkFacing_cardinal_witness :
  let this :=
    GoalPlaceBlock.new topCenter (Vec3.mk 0 0 0) (rayWorld None)
      (GoalPlaceBlock.Options.mk None None (Some "west"%string) false None None) in
  GoalPlaceBlock.checkFacing this (Vec3.mk 3 (-1) 1)
  = (GoalPlaceBlock.facing (GoalPlaceBlock.opts this) =? (1 + 2) mod 4)%Z.
Proof.
  intros this. apply (checkFacing_cardinal this (Vec3.mk 3 (-1) 1) 1%Z).
  - reflexivity.
  - unfold this, GoalPlaceBlock.new. cbn. lia.
  - unfold cardinal. cbn [Vec3.x Vec3.y Vec3.z].
    rewrite Rabs_right by lra. rewrite Rabs_R1.
    decide_ltb. reflexivity.
Defined.

(** X25.  Without [facing3D], a direction with no horizontal part, straight
    up or straight down, is accepted exactly when the facing is [north]:
    the opposite of its zero [z] is the negative zero, [Math.atan2] gives
    PI, the shifted bearing is 360 and the quadrant 0. *)
Theorem checkFacing_vertical_direction (this : GoalPlaceBlock.t) (dir : Vec3.t) :
  GoalPlaceBlock.facing3D (GoalPlaceBlock.opts this) = false ->
  (0 <= GoalPlaceBlock.facing (GoalPlaceBlock.opts this))%Z ->
  Vec3.x dir = 0 -> Vec3.z dir = 0 ->
  GoalPlaceBlock.checkFacing this dir
  = (GoalPlaceBlock.facing (GoalPlaceBlock.opts this) =? 0)%Z.
Proof.
  intros H3 Hf Hx Hz. rewrite checkFacing_horizontal by assumption.
  rewrite Hx, Hz, quadrant_of_vertical. reflexivity.
Qed.

(** The statement above for a goal asked to face north and the direction
    straight down, which it accepts. *)
Lemma checkFacing_vertical_direction_witness :
  let this :=
    GoalPlaceBlock.new topCenter (Vec3.mk 0 0 0) (rayWorld None)
      (GoalPlaceBlock.Options.mk None None (Some "north"%string) false None None) in
  GoalPlaceBlock.checkFacing this (Vec3.mk 0 (-1) 0)
  = (GoalPlaceBlock.facing (GoalPlaceBlock.opts this) =? 0)%Z.
Proof.
  intros this. apply (checkFacing_vertical_direction this (Vec3.mk 0 (-1) 0)).
  - reflexivity.
  - unfold this, GoalPlaceBlock.new. cbn. lia.
  - reflexivity.
  - reflexivity.
Defined.
